(** * A chat relay: validation, message store and live-update fan-out

    Shallow embedding of [backend/app.py]: the request schema [MessageIn],
    the [messages] table, the [ConnectionManager] registry and the three
    entry points ([POST /post/send], [GET /get/msg], [/ws]).

    Python strings are modelled as [string] (characters are 8-bit code
    points), the registry as a [list] of channel identities (order and
    duplicates matter, as for a Python list), JSON objects with string
    values as [gmap string string].  Everything the program asks of its
    surroundings (the database clock, the transport's [accept] and
    [send_json], the character class stripped by the schema, [isoformat])
    is a variable of the section: the theorems hold for every behaviour of
    these.  So is the store's refusal of a write: [session.execute] of the
    insert and [session.commit] may raise, for the reasons the store has of
    its own (a NUL character in a text value, the exhausted 32-bit
    sequence behind [id], a duplicate key) or for any other, and the
    handler does not catch it.  Handlers are modelled as running one at a
    time, the table as created ([init_db] has run) and reads of it as
    answered; interleavings of tasks are outside the model. *)

From Stdlib Require Import ZArith Lia Ascii.
From stdpp Require Import base list strings gmap sorting.

Local Open Scope Z_scope.

(** ** Data model *)

(** A timezone-aware instant, as a count of microseconds. *)
Definition datetime := Z.

(** A [WebSocket] object; Python compares them by identity. *)
Definition WebSocket := nat.

(** A JSON object whose values are strings (a Python [dict]). *)
Abbreviation dict := (gmap string string).

(** [class Message(Base)]: one row of table [messages].  Column
    [timestamp] is nullable. *)
Module Message.
Record t := mk {
  id : Z;
  author : string;
  message : string;
  timestamp : option datetime
}.
End Message.

(** [class MessageIn(BaseModel)], after validation. *)
Module MessageIn.
Record t := mk { author : string; message : string }.
End MessageIn.

(** [class MessageOut(BaseModel)]. *)
Module MessageOut.
Record t := mk { author : string; message : string; timestamp : string }.
End MessageOut.

(** The JSON body of a request to [POST /post/send]. *)
Record Body := { body_author : string; body_message : string }.

(** What an endpoint sends back. *)
Inductive Content :=
| Detail (d : dict)
| ValidationErrors (loc : list string)
| Messages (l : list MessageOut.t)
| ServerError.

Record Response := { status_code : Z; content : Content }.

Definition JSONResponse (content : dict) (status_code : Z) : Response :=
  {| status_code := status_code; content := Detail content |}.

(** Effects on the surroundings, oldest first. *)
Inductive Event :=
| EvAccept (ws : WebSocket) (ok : bool)
| EvSendJson (ws : WebSocket) (message : dict) (ok : bool)
| EvExecuteInsert (row : Message.t)
| EvExecuteRaised
| EvCommit (rows : list Message.t)
| EvCommitRaised
| EvSelect.

(** The process and its database. *)
Record State := {
  messages : list Message.t;           (* committed rows, in insertion order *)
  next_id : Z;                         (* the sequence behind [id] *)
  active_connections : list WebSocket; (* [manager.active_connections] *)
  trace : list Event
}.

(** An [AsyncSession]: the rows inserted and not yet committed. *)
Definition AsyncSession := list Message.t.

Inductive Exception :=
| TransportError
| DatabaseError
| RequestValidationError (loc : list string).

Inductive Result (A : Type) :=
| Ok (a : A)
| Raise (e : Exception).
Arguments Ok {A} a.
Arguments Raise {A} e.

(** Computations over [State] that may raise. *)
Definition M (A : Type) : Type := State → Result A * State.

Definition ret {A} (a : A) : M A := fun st => (Ok a, st).

Definition bind {A B} (k : A → M B) (m : M A) : M B := fun st =>
  match m st with
  | (Ok a, st') => k a st'
  | (Raise e, st') => (Raise e, st')
  end.

#[global] Instance M_ret : MRet M := @ret.
#[global] Instance M_bind : MBind M := @bind.

Definition raise {A} (e : Exception) : M A := fun st => (Raise e, st).

(** [try: m except Exception: h] *)
Definition try_except {A} (m : M A) (h : M A) : M A := fun st =>
  match m st with
  | (Ok a, st') => (Ok a, st')
  | (Raise _, st') => h st'
  end.

Definition get {A} (f : State → A) : M A := fun st => (Ok (f st), st).

Definition log (e : Event) : M unit := fun st =>
  (Ok tt, {| messages := messages st; next_id := next_id st;
             active_connections := active_connections st;
             trace := trace st ++ [e] |}).

Definition set_active_connections (l : list WebSocket) : M unit := fun st =>
  (Ok tt, {| messages := messages st; next_id := next_id st;
             active_connections := l; trace := trace st |}).

Definition set_next_id (i : Z) : M unit := fun st =>
  (Ok tt, {| messages := messages st; next_id := i;
             active_connections := active_connections st;
             trace := trace st |}).

Definition set_messages (rows : list Message.t) : M unit := fun st =>
  (Ok tt, {| messages := rows; next_id := next_id st;
             active_connections := active_connections st;
             trace := trace st |}).

(** [for x in l: acc = body(acc, x)] *)
Fixpoint for_fold {A B} (body : B → A → M B) (acc : B) (l : list A) : M B :=
  match l with
  | [] => mret acc
  | x :: l' => acc' ← body acc x; for_fold body acc' l'
  end.

(** [for x in l: body(x)] *)
Definition for_each {A} (l : list A) (body : A → M unit) : M unit :=
  for_fold (fun _ x => body x) tt l.

(** ** Lists as the code uses them *)

(** [l.remove(x)]: the first occurrence of [x] goes.  Python raises
    [ValueError] when [x] is absent; [disconnect] guards the call, and here
    an absent [x] leaves the list as it is. *)
Fixpoint list_remove (x : WebSocket) (l : list WebSocket) : list WebSocket :=
  match l with
  | [] => []
  | y :: l' => if decide (x = y) then l' else y :: list_remove x l'
  end.

Fixpoint count (x : WebSocket) (l : list WebSocket) : nat :=
  match l with
  | [] => 0%nat
  | y :: l' => ((if decide (x = y) then 1 else 0) + count x l')%nat
  end.

(** ** What the store refuses *)

(** Whether [s] holds the character U+0000, which PostgreSQL does not take
    in a text value. *)
Fixpoint has_nul (s : string) : bool :=
  match s with
  | "" => false
  | String c s' => if decide (c = "000"%char) then true else has_nul s'
  end.

(** The last value of the sequence behind [id], an [Integer] primary key
    (a 32-bit [SERIAL]). *)
Definition id_max : Z := 2147483647.

(** ** Ordering of timestamps: ascending, NULL last (PostgreSQL's [ASC]) *)

Definition ts_leb (a b : option datetime) : bool :=
  match a, b with
  | Some x, Some y => bool_decide (x ≤ y)
  | _, None => true
  | None, Some _ => false
  end.

Definition ts_le (a b : option datetime) : Prop := ts_leb a b = true.

Definition row_le (r1 r2 : Message.t) : Prop :=
  ts_le (Message.timestamp r1) (Message.timestamp r2).

(** [ORDER BY timestamp ASC], as a stable insertion sort. *)
Fixpoint insert_row (r : Message.t) (l : list Message.t) : list Message.t :=
  match l with
  | [] => [r]
  | r' :: l' =>
      if ts_leb (Message.timestamp r) (Message.timestamp r')
      then r :: r' :: l'
      else r' :: insert_row r l'
  end.

Fixpoint order_by_timestamp (l : list Message.t) : list Message.t :=
  match l with
  | [] => []
  | r :: l' => insert_row r (order_by_timestamp l')
  end.


(** ** A concrete environment for the examples *)

(** Tab, line feed, vertical tab, form feed, carriage return and space. *)
Definition example_whitespace : ascii → bool := Ascii.is_space.

(** A clock that advances by one with every effect. *)
Definition example_clock (t : list Event) : datetime :=
  1700000000000000 + Z.of_nat (length t).

(** Stands in for [isoformat]: the digits are not computed. *)
Definition example_isoformat (t : datetime) : string :=
  if decide (t < 1700000000000000)
  then "2023-11-14T22:13:19+00:00"
  else "2023-11-14T22:13:20+00:00".

Definition always_accepts : list Event → WebSocket → bool :=
  fun _ _ => false.

(** Every send to channel 2 raises; the other channels are healthy. *)
Definition channel_2_broken : list Event → WebSocket → dict → bool :=
  fun _ ws _ => bool_decide (ws = 2%nat).

Definition empty_state : State :=
  {| messages := []; next_id := 1; active_connections := []; trace := [] |}.

Definition example_state : State :=
  {| messages := [Message.mk 1 "bob" "yo" (Some 1699999999000000)];
     next_id := 2;
     active_connections := [1; 2; 3]%nat;
     trace := [] |}.

(** The handshake of channel 9 raises; the other handshakes succeed. *)
Definition handshake_9_fails : list Event → WebSocket → bool :=
  fun _ ws => bool_decide (ws = 9%nat).

(** A state whose registered channels are all healthy under
    [channel_2_broken]. *)
Definition healthy_state : State :=
  {| messages := []; next_id := 1;
     active_connections := [1; 3]%nat; trace := [] |}.

(** A store that takes every write it can take. *)
Definition store_up : list Event → bool := fun _ => false.

(** A store that cannot be reached. *)
Definition store_down : list Event → bool := fun _ => true.

(** A state whose sequence has given out its last value. *)
Definition exhausted_state : State :=
  {| messages := [Message.mk 2147483647 "bob" "yo" (Some 1699999999000000)];
     next_id := 2147483648;
     active_connections := [1; 2; 3]%nat;
     trace := [] |}.

(** The author is [a], U+0000, [b]: three characters, none stripped. *)
Definition nul_author : Body :=
  {| body_author := String "a" (String "000" (String "b" ""));
     body_message := "hi" |}.

Definition alice_hi : Body :=
  {| body_author := "  alice "; body_message := "hi" |}.

Definition blank_author : Body :=
  {| body_author := "   "; body_message := "hi" |}.

Ltac run_M :=
  unfold mbind, M_bind, bind, mret, M_ret, ret, raise, try_except, get,
    log, set_active_connections, set_next_id, set_messages; simpl.

(** ** The program *)

Section App.
(** The characters [strip_whitespace] removes. *)
Variable is_whitespace : ascii → bool.
(** [datetime.isoformat]. *)
Variable isoformat : datetime → string.
(** The database's [now()], given what has happened so far. *)
Variable now : list Event → datetime.
(** Whether [websocket.accept()] raises. *)
Variable accept_raises : list Event → WebSocket → bool.
(** Whether [connection.send_json(message)] raises. *)
Variable send_raises : list Event → WebSocket → dict → bool.
(** Whether the store refuses the insert for a reason of its own making
    (it cannot be reached, say). *)
Variable execute_raises : list Event → bool.
(** Whether [session.commit()] raises. *)
Variable commit_raises : list Event → bool.

(** *** Pydantic schema *)

Fixpoint lstrip (s : string) : string :=
  match s with
  | "" => ""
  | String c s' => if is_whitespace c then lstrip s' else s
  end.

Fixpoint rstrip (s : string) : string :=
  match s with
  | "" => ""
  | String c s' =>
      match rstrip s' with
      | "" => if is_whitespace c then "" else String c ""
      | r => String c r
      end
  end.

Definition strip (s : string) : string := rstrip (lstrip s).

(** [constr(strip_whitespace=..., min_length=..., max_length=...)]:
    the value is stripped first and its length checked afterwards. *)
Definition constr (strip_whitespace : bool) (min_length max_length : nat)
    (v : string) : option string :=
  let v := if strip_whitespace then strip v else v in
  if decide (min_length ≤ String.length v ≤ max_length)%nat
  then Some v else None.

(** Validation of a body against [MessageIn]: the model, or the fields
    in error. *)
Definition MessageIn_validate (b : Body) : MessageIn.t + list string :=
  match constr true 1 255 (body_author b),
        constr true 1 255 (body_message b) with
  | Some a, Some m => inl (MessageIn.mk a m)
  | oa, om =>
      inr (match oa with Some _ => [] | None => ["author"] end ++
           match om with Some _ => [] | None => ["message"] end)
  end.

(** *** Transport *)

Definition accept (ws : WebSocket) : M unit :=
  t ← get trace;
  if accept_raises t ws
  then log (EvAccept ws false);; raise TransportError
  else log (EvAccept ws true).

Definition send_json (ws : WebSocket) (message : dict) : M unit :=
  t ← get trace;
  if send_raises t ws message
  then log (EvSendJson ws message false);; raise TransportError
  else log (EvSendJson ws message true).

(** *** [class ConnectionManager] *)

Definition connect (websocket : WebSocket) : M unit :=
  accept websocket;;
  l ← get active_connections;
  set_active_connections (l ++ [websocket]).

Definition disconnect (websocket : WebSocket) : M unit :=
  l ← get active_connections;
  if decide (websocket ∈ l)
  then set_active_connections (list_remove websocket l)
  else mret tt.

(** The first loop of [broadcast]; the accumulator is [to_remove]. *)
Definition sweep (message : dict) (conns : list WebSocket)
    : M (list WebSocket) :=
  for_fold (fun to_remove connection =>
              try_except (send_json connection message;; mret to_remove)
                         (mret (to_remove ++ [connection])))
           [] conns.

(** The sweep reads the registry as it is when the loop starts; nothing
    else runs during the loop, so this is the list the loop walks. *)
Definition broadcast (message : dict) : M unit :=
  conns ← get active_connections;
  to_remove ← sweep message conns;
  for_each to_remove disconnect.

(** *** Sessions *)

(** [session.execute(insert(Message).values(author=..., message=...))]:
    [id] comes from the sequence, [timestamp] from [server_default].  The
    statement raises when the store refuses it: before anything is done
    when the store fails of its own or a value holds U+0000; when the
    sequence is exhausted; and, the value of the sequence taken, when the
    table or the session has a row of that [id] already. *)
Definition execute_insert (session : AsyncSession) (author message : string)
    : M AsyncSession :=
  t ← get trace;
  if execute_raises t || has_nul author || has_nul message
  then log EvExecuteRaised;; raise DatabaseError
  else
    i ← get next_id;
    if decide (id_max < i)
    then log EvExecuteRaised;; raise DatabaseError
    else
      set_next_id (i + 1);;
      rows ← get messages;
      if decide (i ∈ Message.id <$> rows ++ session)
      then log EvExecuteRaised;; raise DatabaseError
      else
        let row := Message.mk i author message (Some (now t)) in
        log (EvExecuteInsert row);;
        mret (session ++ [row]).

(** [session.commit()]: the rows of the session become rows of the table,
    unless the store refuses, and then they are lost with the session. *)
Definition commit (session : AsyncSession) : M AsyncSession :=
  t ← get trace;
  if commit_raises t
  then log EvCommitRaised;; raise DatabaseError
  else
    rows ← get messages;
    set_messages (rows ++ session);;
    log (EvCommit session);;
    mret [].

(** [session.execute(select(Message).order_by(Message.timestamp.asc()))]
    followed by [.scalars().all()]. *)
Definition execute_select (session : AsyncSession) : M (list Message.t) :=
  rows ← get messages;
  log EvSelect;;
  mret (order_by_timestamp (rows ++ session)).

(** *** Endpoints *)

Definition post_message (msg : MessageIn.t) (session : AsyncSession)
    : M Response :=
  session ← execute_insert session (MessageIn.author msg)
                           (MessageIn.message msg);
  session ← commit session;
  broadcast {[ "author" := MessageIn.author msg;
               "message" := MessageIn.message msg ]};;
  mret (JSONResponse {[ "detail" := "Message sent" ]} 200).

Definition to_MessageOut (m : Message.t) : MessageOut.t :=
  MessageOut.mk (Message.author m) (Message.message m)
    (match Message.timestamp m with
     | Some t => isoformat t
     | None => ""
     end).

Definition get_messages (session : AsyncSession) : M (list MessageOut.t) :=
  messages ← execute_select session;
  mret (to_MessageOut <$> messages).

(** The framework around a handler: a validation error becomes a 422, any
    other exception a 500. *)
Definition respond (m : M Response) (st : State) : Response * State :=
  match m st with
  | (Ok r, st') => (r, st')
  | (Raise (RequestValidationError loc), st') =>
      ({| status_code := 422; content := ValidationErrors loc |}, st')
  | (Raise _, st') =>
      ({| status_code := 500; content := ServerError |}, st')
  end.

(** [POST /post/send]: the body is validated before the handler runs;
    the handler gets a fresh session. *)
Definition POST_post_send (body : Body) : State → Response * State :=
  respond (match MessageIn_validate body with
           | inl msg => post_message msg []
           | inr loc => raise (RequestValidationError loc)
           end).

(** [GET /get/msg] *)
Definition GET_get_msg : State → Response * State :=
  respond (l ← get_messages [];
           mret {| status_code := 200; content := Messages l |}).

(** [/ws]: [websocket_endpoint] registers the channel and then idles;
    its [except] branches unregister it. *)
Definition websocket_endpoint_open (websocket : WebSocket) : M unit :=
  connect websocket.

Definition websocket_endpoint_except (websocket : WebSocket) : M unit :=
  disconnect websocket.

(** The entry points of the program, and what one request does. *)
Inductive Request :=
| ReqPostSend (body : Body)
| ReqGetMsg
| ReqWsOpen (websocket : WebSocket)
| ReqWsExcept (websocket : WebSocket).

Definition step (r : Request) (st : State) : State :=
  match r with
  | ReqPostSend body => (POST_post_send body st).2
  | ReqGetMsg => (GET_get_msg st).2
  | ReqWsOpen ws => (websocket_endpoint_open ws st).2
  | ReqWsExcept ws => (websocket_endpoint_except ws st).2
  end.

Definition run (rs : list Request) (st : State) : State :=
  foldl (fun st r => step r st) st rs.

(** *** Vocabulary of the statements *)

(** A field the schema rejects: empty once stripped, or too long. *)
Definition invalid_field (v : string) : Prop :=
  strip v = "" ∨ (255 < String.length (strip v))%nat.

Definition valid_field (v : string) : Prop :=
  (1 ≤ String.length (strip v) ≤ 255)%nat.

(** The send events of one sweep over [conns], started after history [t]. *)
Fixpoint sweep_events (message : dict) (t : list Event)
    (conns : list WebSocket) : list Event :=
  match conns with
  | [] => []
  | ws :: rest =>
      let e := EvSendJson ws message (negb (send_raises t ws message)) in
      e :: sweep_events message (t ++ [e]) rest
  end.

(** The channels of the failed sends among [evs], in order. *)
Definition failures (evs : list Event) : list WebSocket :=
  omap (fun e => match e with
                 | EvSendJson ws _ false => Some ws
                 | _ => None
                 end) evs.

(** The channels of the successful sends among [evs], in order. *)
Definition delivered (evs : list Event) : list WebSocket :=
  omap (fun e => match e with
                 | EvSendJson ws _ true => Some ws
                 | _ => None
                 end) evs.

(** The channel each send of [evs] went to. *)
Definition recipients (evs : list Event) : list WebSocket :=
  omap (fun e => match e with
                 | EvSendJson ws _ _ => Some ws
                 | _ => None
                 end) evs.

(** [for conn in to_remove: l.remove(conn)] *)
Definition remove_all (to_remove l : list WebSocket) : list WebSocket :=
  foldl (fun l x => list_remove x l) l to_remove.

(** Two calls in a row. *)
Definition twice (m : M unit) : M unit := m;; m.

(** The row [post_message] inserts for [msg] in state [st]. *)
Definition inserted_row (msg : MessageIn.t) (st : State) : Message.t :=
  Message.mk (next_id st) (MessageIn.author msg) (MessageIn.message msg)
             (Some (now (trace st))).

(** The state of [post_message] once [commit] has returned. *)
Definition committed (msg : MessageIn.t) (st : State) : State :=
  {| messages := messages st ++ [inserted_row msg st];
     next_id := next_id st + 1;
     active_connections := active_connections st;
     trace := trace st ++ [EvExecuteInsert (inserted_row msg st);
                           EvCommit [inserted_row msg st]] |}.

(** The store takes the row of [msg] in state [st]: neither the insert
    nor the commit raises. *)
Definition store_accepts (msg : MessageIn.t) (st : State) : Prop :=
  execute_raises (trace st) = false ∧
  has_nul (MessageIn.author msg) = false ∧
  has_nul (MessageIn.message msg) = false ∧
  next_id st ≤ id_max ∧
  (next_id st ∉ Message.id <$> messages st) ∧
  commit_raises (trace st ++ [EvExecuteInsert (inserted_row msg st)]) = false.

(** Whether request [r], made in state [st], is a submission answered
    with 200. *)
Definition acknowledges (r : Request) (st : State) : bool :=
  match r with
  | ReqPostSend body =>
      bool_decide (status_code (POST_post_send body st).1 = 200)
  | _ => false
  end.

(** How many of the requests [rs], made one after the other from state
    [st], are submissions answered with 200. *)
Fixpoint acknowledged (rs : list Request) (st : State) : nat :=
  match rs with
  | [] => 0%nat
  | r :: rs' =>
      ((if acknowledges r st then 1 else 0) + acknowledged rs' (step r st))%nat
  end.

(** The channels the requests [rs] open, in order. *)
Definition opened (rs : list Request) : list WebSocket :=
  omap (fun r => match r with ReqWsOpen ws => Some ws | _ => None end) rs.

(** A row with both fields within the bounds of the schema and a
    timestamp. *)
Definition row_ok (r : Message.t) : Prop :=
  (1 ≤ String.length (Message.author r) ≤ 255)%nat ∧
  (1 ≤ String.length (Message.message r) ≤ 255)%nat ∧
  is_Some (Message.timestamp r).

(** The ids of the table increase with the position and lie below the
    next value of the sequence. *)
Definition ids_ok (st : State) : Prop :=
  StronglySorted Z.lt (Message.id <$> messages st) ∧
  Forall (fun r => Message.id r < next_id st) (messages st).

(** ** Running the monad *)

Lemma list_remove_not_elem (x : WebSocket) (l : list WebSocket) :
  x ∉ l → list_remove x l = l.
Proof.
  induction l as [|y l IH]; simpl; [done|].
  intros Hx. apply not_elem_of_cons in Hx as [Hne Hx].
  destruct (decide (x = y)); [done|]. by rewrite IH.
Qed.

Lemma disconnect_spec (ws : WebSocket) (st : State) :
  disconnect ws st =
    (Ok tt, {| messages := messages st; next_id := next_id st;
               active_connections := list_remove ws (active_connections st);
               trace := trace st |}).
Proof.
  unfold disconnect. run_M.
  destruct (decide (ws ∈ active_connections st)) as [|Hn]; [done|].
  rewrite (list_remove_not_elem _ _ Hn). by destruct st.
Qed.

Lemma for_each_disconnect_spec (to_remove : list WebSocket) (st : State) :
  for_each to_remove (disconnect) st =
    (Ok tt, {| messages := messages st; next_id := next_id st;
               active_connections :=
                 remove_all to_remove (active_connections st);
               trace := trace st |}).
Proof.
  unfold for_each. revert st.
  induction to_remove as [|x l IH]; intros st; simpl.
  - by destruct st.
  - run_M. rewrite disconnect_spec. by rewrite IH.
Qed.

Lemma sweep_spec (message : dict) (conns : list WebSocket) (st : State) :
  sweep message conns st =
    (Ok (failures (sweep_events message (trace st) conns)),
     {| messages := messages st; next_id := next_id st;
        active_connections := active_connections st;
        trace := trace st ++ sweep_events message (trace st) conns |}).
Proof.
  unfold sweep.
  enough (∀ acc,
    for_fold (fun to_remove connection =>
                try_except (send_json connection message;; mret to_remove)
                           (mret (to_remove ++ [connection]))) acc conns st =
    (Ok (acc ++ failures (sweep_events message (trace st) conns)),
     {| messages := messages st; next_id := next_id st;
        active_connections := active_connections st;
        trace := trace st ++ sweep_events message (trace st) conns |}))
    as H by apply (H []).
  revert st. induction conns as [|ws rest IH]; intros st acc; simpl.
  - run_M. rewrite !app_nil_r. by destruct st.
  - unfold send_json. run_M.
    destruct (send_raises (trace st) ws message); simpl;
      rewrite IH; simpl; unfold failures; simpl;
      by rewrite <- ?app_assoc.
Qed.

Lemma broadcast_spec (message : dict) (st : State) :
  broadcast message st =
    (Ok tt,
     {| messages := messages st; next_id := next_id st;
        active_connections :=
          remove_all
            (failures (sweep_events message (trace st)
                         (active_connections st)))
            (active_connections st);
        trace := trace st ++
                 sweep_events message (trace st) (active_connections st) |}).
Proof.
  unfold broadcast. run_M. rewrite sweep_spec.
  by rewrite for_each_disconnect_spec.
Qed.

(** ** Counting occurrences in the registry *)

Lemma count_app (c : WebSocket) (l1 l2 : list WebSocket) :
  count c (l1 ++ l2) = (count c l1 + count c l2)%nat.
Proof. induction l1 as [|y l1 IH]; simpl; [done|]. rewrite IH. lia. Qed.

Lemma count_elem_of (c : WebSocket) (l : list WebSocket) :
  c ∈ l ↔ (0 < count c l)%nat.
Proof.
  induction l as [|y l IH]; simpl.
  - split; [by intros ?%elem_of_nil | lia].
  - rewrite elem_of_cons, IH. destruct (decide (c = y)); simpl.
    + split; [lia | by left].
    + split; [by intros [?|?] | by right].
Qed.

Lemma count_elem_of_not (c : WebSocket) (l : list WebSocket) :
  c ∉ l → count c l = 0%nat.
Proof. rewrite count_elem_of. lia. Qed.

Lemma count_list_remove (c x : WebSocket) (l : list WebSocket) :
  count c (list_remove x l) =
    if decide (c = x) then pred (count c l) else count c l.
Proof.
  induction l as [|y l IH]; simpl.
  - by destruct (decide (c = x)).
  - destruct (decide (x = y)) as [->|Hxy]; simpl.
    + destruct (decide (c = y)); simpl; done.
    + rewrite IH. destruct (decide (c = x)) as [->|Hcx].
      * destruct (decide (x = y)); [done|]. simpl. done.
      * done.
Qed.

Lemma count_remove_all (c : WebSocket) (rs l : list WebSocket) :
  count c (remove_all rs l) = (count c l - count c rs)%nat.
Proof.
  unfold remove_all. revert l.
  induction rs as [|x rs IH]; intros l; simpl; [lia|].
  rewrite IH, count_list_remove.
  destruct (decide (c = x)); simpl; lia.
Qed.

Lemma length_list_remove (x : WebSocket) (l : list WebSocket) :
  x ∈ l → S (length (list_remove x l)) = length l.
Proof.
  induction l as [|y l IH]; simpl; [by intros ?%elem_of_nil|].
  intros Hx. destruct (decide (x = y)); [done|]. simpl. rewrite IH; [done|].
  apply elem_of_cons in Hx as [?|?]; done.
Qed.

(** ** The sweep *)

Lemma recipients_sweep_events (message : dict) (t : list Event)
    (conns : list WebSocket) :
  recipients (sweep_events message t conns) = conns.
Proof.
  revert t. induction conns as [|ws rest IH]; intros t; [done|].
  unfold recipients in *. simpl. by rewrite IH.
Qed.

Lemma sweep_events_payload (message : dict) (t : list Event)
    (conns : list WebSocket) (e : Event) :
  e ∈ sweep_events message t conns →
  ∃ ws ok, e = EvSendJson ws message ok ∧ ws ∈ conns.
Proof.
  revert t. induction conns as [|ws rest IH]; intros t; simpl.
  - by intros ?%elem_of_nil.
  - intros [->|He]%elem_of_cons.
    + eexists _, _. split; [done|]. by left.
    + destruct (IH _ He) as (ws' & ok & -> & Hin).
      exists ws', ok. split; [done|]. by right.
Qed.

Lemma failures_cons (ws : WebSocket) (message : dict) (ok : bool)
    (evs : list Event) :
  failures (EvSendJson ws message ok :: evs) =
    if ok then failures evs else ws :: failures evs.
Proof. by destruct ok. Qed.

Lemma count_failures_le (message : dict) (t : list Event)
    (conns : list WebSocket) (c : WebSocket) :
  (count c (failures (sweep_events message t conns)) ≤ count c conns)%nat.
Proof.
  revert t. induction conns as [|ws rest IH]; intros t; [done|].
  cbn [sweep_events]. rewrite failures_cons.
  destruct (send_raises t ws message); cbn [negb count].
  - specialize (IH (t ++ [EvSendJson ws message false])).
    destruct (decide (c = ws)); lia.
  - specialize (IH (t ++ [EvSendJson ws message true])).
    destruct (decide (c = ws)); lia.
Qed.

Lemma failures_healthy (message : dict) (t : list Event)
    (conns : list WebSocket) (c : WebSocket) :
  (∀ t', send_raises t' c message = false) →
  count c (failures (sweep_events message t conns)) = 0%nat.
Proof.
  intros Hc. revert t.
  induction conns as [|ws rest IH]; intros t; [done|].
  cbn [sweep_events]. rewrite failures_cons.
  destruct (send_raises t ws message) eqn:Hs; cbn [negb count];
    [|apply IH].
  destruct (decide (c = ws)) as [->|]; [|apply IH].
  by rewrite Hc in Hs.
Qed.

Lemma delivered_cons (ws : WebSocket) (message : dict) (ok : bool)
    (evs : list Event) :
  delivered (EvSendJson ws message ok :: evs) =
    if ok then ws :: delivered evs else delivered evs.
Proof. by destruct ok. Qed.

Lemma count_delivered_healthy (message : dict) (t : list Event)
    (conns : list WebSocket) (c : WebSocket) :
  (∀ t', send_raises t' c message = false) →
  count c (delivered (sweep_events message t conns)) = count c conns.
Proof.
  intros Hc. revert t.
  induction conns as [|ws rest IH]; intros t; [done|].
  cbn [sweep_events]. rewrite delivered_cons.
  destruct (send_raises t ws message) eqn:Hs; cbn [negb count].
  - destruct (decide (c = ws)) as [->|]; [by rewrite Hc in Hs|].
    by rewrite IH.
  - by rewrite IH.
Qed.

(** ** Registration *)

Lemma connect_spec (ws : WebSocket) (st : State) :
  accept_raises (trace st) ws = false →
  connect ws st =
    (Ok tt, {| messages := messages st; next_id := next_id st;
               active_connections := active_connections st ++ [ws];
               trace := trace st ++ [EvAccept ws true] |}).
Proof. intros H. unfold connect, accept. run_M. by rewrite H. Qed.

Lemma connect_messages (ws : WebSocket) (st : State) :
  messages (connect ws st).2 = messages st.
Proof.
  unfold connect, accept. run_M.
  by destruct (accept_raises (trace st) ws).
Qed.

(** ** Validation *)

Lemma constr_valid (v : string) :
  valid_field v → constr true 1 255 v = Some (strip v).
Proof. unfold valid_field, constr. intros H. by rewrite decide_True. Qed.

Lemma constr_invalid (v : string) :
  invalid_field v → constr true 1 255 v = None.
Proof.
  unfold invalid_field, constr. intros [H|H].
  - rewrite H. by rewrite decide_False by (simpl; lia).
  - by rewrite decide_False by lia.
Qed.

Lemma valid_or_invalid (v : string) : valid_field v ∨ invalid_field v.
Proof.
  unfold valid_field, invalid_field.
  destruct (strip v) as [|c s]; simpl; [by right; left|].
  destruct (decide (S (String.length s) ≤ 255)%nat); [left|right;right]; lia.
Qed.

Lemma MessageIn_validate_valid (body : Body) :
  valid_field (body_author body) → valid_field (body_message body) →
  MessageIn_validate body =
    inl (MessageIn.mk (strip (body_author body)) (strip (body_message body))).
Proof.
  intros Ha Hm. unfold MessageIn_validate.
  by rewrite (constr_valid _ Ha), (constr_valid _ Hm).
Qed.

Lemma MessageIn_validate_invalid (body : Body) :
  invalid_field (body_author body) ∨ invalid_field (body_message body) →
  ∃ loc, loc ≠ [] ∧ MessageIn_validate body = inr loc.
Proof.
  unfold MessageIn_validate. intros [H|H]; rewrite (constr_invalid _ H).
  - eexists. split; [|done]. done.
  - destruct (constr true 1 255 (body_author body));
      (eexists; split; [|done]; done).
Qed.

(** ** The submission handler *)

#[local] Instance store_accepts_dec (msg : MessageIn.t) (st : State) :
  Decision (store_accepts msg st).
Proof. unfold store_accepts. apply _. Defined.

Lemma post_message_spec (msg : MessageIn.t) (st : State) :
  store_accepts msg st →
  post_message msg [] st =
    (Ok (JSONResponse {[ "detail" := "Message sent" ]} 200),
     (broadcast {[ "author" := MessageIn.author msg;
                   "message" := MessageIn.message msg ]}
                (committed msg st)).2).
Proof.
  intros (He & Ha & Hm & Hmax & Hfresh & Hc).
  unfold post_message, execute_insert, commit. run_M.
  rewrite He, Ha, Hm. simpl.
  rewrite decide_False by lia. simpl.
  rewrite app_nil_r, decide_False by done. simpl.
  fold (inserted_row msg st). rewrite Hc. simpl.
  rewrite <- app_assoc. simpl.
  fold (committed msg st). by rewrite broadcast_spec.
Qed.

(** What a refused write leaves behind: no row, no send, the registry
    as it was. *)
Lemma post_message_refused (msg : MessageIn.t) (st : State) :
  ¬ store_accepts msg st →
  ∃ st' evs,
    post_message msg [] st = (Raise DatabaseError, st') ∧
    messages st' = messages st ∧
    active_connections st' = active_connections st ∧
    next_id st ≤ next_id st' ≤ next_id st + 1 ∧
    trace st' = trace st ++ evs ∧
    recipients evs = [].
Proof.
  intros Hno. unfold post_message, execute_insert, commit. run_M.
  destruct (execute_raises (trace st)) eqn:He; simpl.
  { eexists _, [_]. repeat split; simpl; first [lia|done]. }
  destruct (has_nul (MessageIn.author msg)) eqn:Ha; simpl.
  { eexists _, [_]. repeat split; simpl; first [lia|done]. }
  destruct (has_nul (MessageIn.message msg)) eqn:Hm; simpl.
  { eexists _, [_]. repeat split; simpl; first [lia|done]. }
  destruct (decide (id_max < next_id st)) as [Hmax|Hmax]; simpl.
  { eexists _, [_]. repeat split; simpl; first [lia|done]. }
  rewrite app_nil_r.
  destruct (decide (next_id st ∈ Message.id <$> messages st))
    as [Hdup|Hdup]; simpl.
  { eexists _, [_]. repeat split; simpl; first [lia|done]. }
  fold (inserted_row msg st).
  destruct (commit_raises (trace st ++ [EvExecuteInsert (inserted_row msg st)]))
    eqn:Hc; simpl.
  { eexists _, [_; _].
    repeat split; simpl; rewrite <- ?app_assoc; first [lia|done]. }
  exfalso. apply Hno. repeat split; try done. lia.
Qed.

Lemma POST_post_send_valid (body : Body) (st : State) :
  valid_field (body_author body) → valid_field (body_message body) →
  let msg := MessageIn.mk (strip (body_author body))
                          (strip (body_message body)) in
  store_accepts msg st →
  POST_post_send body st =
    (JSONResponse {[ "detail" := "Message sent" ]} 200,
     (broadcast {[ "author" := MessageIn.author msg;
                   "message" := MessageIn.message msg ]}
                (committed msg st)).2).
Proof.
  intros Ha Hm msg Hs. unfold POST_post_send, respond.
  rewrite (MessageIn_validate_valid _ Ha Hm). fold msg.
  by rewrite post_message_spec.
Qed.

Lemma POST_post_send_refused (body : Body) (st : State) :
  valid_field (body_author body) → valid_field (body_message body) →
  ¬ store_accepts (MessageIn.mk (strip (body_author body))
                                (strip (body_message body))) st →
  ∃ st' evs,
    POST_post_send body st =
      ({| status_code := 500; content := ServerError |}, st') ∧
    messages st' = messages st ∧
    active_connections st' = active_connections st ∧
    next_id st ≤ next_id st' ≤ next_id st + 1 ∧
    trace st' = trace st ++ evs ∧
    recipients evs = [].
Proof.
  intros Ha Hm Hno. unfold POST_post_send, respond.
  rewrite (MessageIn_validate_valid _ Ha Hm).
  destruct (post_message_refused _ _ Hno) as (st' & evs & -> & H).
  by exists st', evs.
Qed.

(** ** [ORDER BY timestamp ASC] *)

Lemma ts_leb_total (a b : option datetime) :
  ts_leb a b = false → ts_leb b a = true.
Proof.
  destruct a as [x|], b as [y|]; simpl; try done.
  intros H%bool_decide_eq_false. apply bool_decide_eq_true. lia.
Qed.

Lemma ts_le_trans (a b c : option datetime) :
  ts_le a b → ts_le b c → ts_le a c.
Proof.
  unfold ts_le. destruct a as [x|], b as [y|], c as [z|]; simpl; try done.
  intros H1%bool_decide_eq_true H2%bool_decide_eq_true.
  apply bool_decide_eq_true. lia.
Qed.

#[local] Instance row_le_trans : Transitive row_le.
Proof. intros r1 r2 r3. unfold row_le. apply ts_le_trans. Qed.

Lemma insert_row_perm (r : Message.t) (l : list Message.t) :
  insert_row r l ≡ₚ r :: l.
Proof.
  induction l as [|r' l IH]; simpl; [done|].
  destruct (ts_leb (Message.timestamp r) (Message.timestamp r')); [done|].
  rewrite IH. apply Permutation_swap.
Qed.

Lemma order_by_timestamp_perm (l : list Message.t) :
  order_by_timestamp l ≡ₚ l.
Proof.
  induction l as [|r l IH]; simpl; [done|].
  by rewrite insert_row_perm, IH.
Qed.

Lemma insert_row_HdRel (r0 r : Message.t) (l : list Message.t) :
  row_le r0 r → HdRel row_le r0 l → HdRel row_le r0 (insert_row r l).
Proof.
  intros Hr Hl. destruct l as [|r' l]; simpl; [by constructor|].
  destruct (ts_leb (Message.timestamp r) (Message.timestamp r'));
    constructor; [done|]. by inversion Hl.
Qed.

Lemma insert_row_sorted (r : Message.t) (l : list Message.t) :
  Sorted row_le l → Sorted row_le (insert_row r l).
Proof.
  induction 1 as [|r' l Hs IH Hhd]; simpl.
  - by repeat constructor.
  - destruct (ts_leb (Message.timestamp r) (Message.timestamp r')) eqn:E.
    + constructor; [by constructor|]. by constructor.
    + constructor; [done|].
      apply insert_row_HdRel; [|done]. by apply ts_leb_total.
Qed.

Lemma order_by_timestamp_sorted (l : list Message.t) :
  StronglySorted row_le (order_by_timestamp l).
Proof.
  apply Sorted_StronglySorted; [apply _|].
  induction l as [|r l IH]; simpl; [constructor|].
  by apply insert_row_sorted.
Qed.

(** ** The history handler *)

Lemma GET_get_msg_spec (st : State) :
  GET_get_msg st =
    ({| status_code := 200;
        content :=
          Messages (to_MessageOut <$> order_by_timestamp (messages st)) |},
     {| messages := messages st; next_id := next_id st;
        active_connections := active_connections st;
        trace := trace st ++ [EvSelect] |}).
Proof.
  unfold GET_get_msg, respond, get_messages, execute_select. run_M.
  by rewrite app_nil_r.
Qed.

Lemma post_send_rejects_invalid_aux (body : Body) (st : State) :
  invalid_field (body_author body) ∨ invalid_field (body_message body) →
  ∃ loc, POST_post_send body st =
           ({| status_code := 422; content := ValidationErrors loc |}, st).
Proof.
  intros H. destruct (MessageIn_validate_invalid _ H) as (loc & _ & Hv).
  exists loc. unfold POST_post_send, respond. by rewrite Hv.
Qed.

(** ** Claims *)

(** C1. A submission whose author or message is empty once stripped, or
    longer than 255 characters once stripped, is answered with a
    validation failure (HTTP 422) and has no effect at all: the state
    after it, with its table, its registry and its history of effects,
    is the state before it, so no row was inserted and nothing was sent,
    and a following [GET /get/msg] answers as it would have before. *)
Theorem post_send_rejects_invalid (body : Body) (st : State) :
  invalid_field (body_author body) ∨ invalid_field (body_message body) →
  ∃ loc,
    loc ≠ [] ∧
    POST_post_send body st =
      ({| status_code := 422; content := ValidationErrors loc |}, st) ∧
    (GET_get_msg (POST_post_send body st).2).1 = (GET_get_msg st).1.
Proof.
  intros H. destruct (MessageIn_validate_invalid _ H) as (loc & Hne & Hv).
  exists loc. split; [done|].
  assert (POST_post_send body st =
    ({| status_code := 422; content := ValidationErrors loc |}, st)) as E.
  { unfold POST_post_send, respond. by rewrite Hv. }
  split; [done|]. by rewrite E.
Qed.

(** C8 (amended). On every valid input whose row the store accepts,
    [POST /post/send] answers HTTP 200 with the body
    [{"detail": "Message sent"}]; [detail] is the only key of that body,
    so neither the stored row nor its id is returned. *)
Theorem post_send_acknowledges (body : Body) (st : State) :
  valid_field (body_author body) → valid_field (body_message body) →
  store_accepts (MessageIn.mk (strip (body_author body))
                              (strip (body_message body))) st →
  ∃ d,
    (POST_post_send body st).1 =
      {| status_code := 200; content := Detail d |} ∧
    d = {[ "detail" := "Message sent" ]} ∧
    dom d = ({[ "detail" ]} : gset string) ∧
    d !! "id" = None ∧ d !! "author" = None ∧
    d !! "message" = None ∧ d !! "timestamp" = None.
Proof.
  intros Ha Hm Hs. rewrite (POST_post_send_valid _ _ Ha Hm Hs). simpl.
  eexists. split; [done|]. split; [done|].
  split; [by rewrite dom_singleton_L|]. done.
Qed.

(** C4. [GET /get/msg] takes no input.  Whatever the state, it answers
    with one object per stored message (the rows behind the answer are a
    rearrangement of the table) in ascending order of timestamp, rows
    without a timestamp last; each object carries the row's author and
    message, and as timestamp the ISO text of the row's timestamp, or the
    empty string when that is null. *)
Theorem get_msg_lists_all_in_order (st : State) :
  ∃ rows,
    (GET_get_msg st).1 =
      {| status_code := 200; content := Messages (to_MessageOut <$> rows) |} ∧
    rows ≡ₚ messages st ∧
    StronglySorted row_le rows ∧
    ∀ m, m ∈ rows →
      MessageOut.author (to_MessageOut m) = Message.author m ∧
      MessageOut.message (to_MessageOut m) = Message.message m ∧
      MessageOut.timestamp (to_MessageOut m) =
        match Message.timestamp m with
        | Some t => isoformat t
        | None => ""
        end.
Proof.
  exists (order_by_timestamp (messages st)).
  rewrite GET_get_msg_spec. simpl.
  split; [done|]. split; [apply order_by_timestamp_perm|].
  split; [apply order_by_timestamp_sorted|]. done.
Qed.

(** C2 (amended). After a submission whose author and message are within
    the bounds and whose row the store accepts, [GET /get/msg] answers
    with a list that has an entry whose author and message are the
    submitted ones (as the schema keeps them: stripped), and the rows
    behind the list are in non-decreasing order of timestamp. *)
Theorem post_then_get_shows_message (body : Body) (st : State) :
  valid_field (body_author body) → valid_field (body_message body) →
  store_accepts (MessageIn.mk (strip (body_author body))
                              (strip (body_message body))) st →
  ∃ rows out,
    (GET_get_msg (POST_post_send body st).2).1 =
      {| status_code := 200; content := Messages (to_MessageOut <$> rows) |} ∧
    out ∈ to_MessageOut <$> rows ∧
    MessageOut.author out = strip (body_author body) ∧
    MessageOut.message out = strip (body_message body) ∧
    StronglySorted row_le rows.
Proof.
  intros Ha Hm Hs. rewrite (POST_post_send_valid _ _ Ha Hm Hs).
  rewrite broadcast_spec, GET_get_msg_spec. simpl.
  set (msg := MessageIn.mk _ _). set (row := inserted_row msg st).
  exists (order_by_timestamp (messages st ++ [row])), (to_MessageOut row).
  split; [done|].
  split.
  { apply list_elem_of_fmap. exists row. split; [done|].
    rewrite order_by_timestamp_perm. apply elem_of_app. right. by left. }
  split; [done|]. split; [done|]. apply order_by_timestamp_sorted.
Qed.

(** C3. [broadcast] first sweeps the registry: it sends the payload to
    every registered channel, one send per entry and in registry order,
    whether or not earlier sends failed, and leaves the registry as it
    was while it does so.  Only then are the channels of the failed sends
    unregistered, one entry per failed send, with no further send: a
    channel loses exactly as many entries as sends to it failed, so a
    channel with no failed send keeps its entries and a channel registered
    once whose send failed is gone. *)
Theorem broadcast_sweeps_then_removes (message : dict) (st : State) :
  ∃ evs to_remove st1 st2,
    sweep message (active_connections st) st = (Ok to_remove, st1) ∧
    trace st1 = trace st ++ evs ∧
    evs = sweep_events message (trace st) (active_connections st) ∧
    recipients evs = active_connections st ∧
    (∀ e, e ∈ evs → ∃ ws ok, e = EvSendJson ws message ok) ∧
    to_remove = failures evs ∧
    active_connections st1 = active_connections st ∧
    broadcast message st = for_each to_remove disconnect st1 ∧
    broadcast message st = (Ok tt, st2) ∧
    trace st2 = trace st1 ∧
    active_connections st2 =
      remove_all to_remove (active_connections st) ∧
    ∀ c, (count c to_remove ≤ count c (active_connections st))%nat ∧
         count c (active_connections st2) =
           (count c (active_connections st) - count c to_remove)%nat ∧
         (c ∉ to_remove →
          count c (active_connections st2) =
            count c (active_connections st)) ∧
         (c ∈ to_remove → (count c (active_connections st) ≤ 1)%nat →
          c ∉ active_connections st2).
Proof.
  eexists _, _, _, _.
  split; [apply sweep_spec|]. simpl.
  split; [done|]. split; [done|].
  split; [apply recipients_sweep_events|].
  split.
  { intros e He. apply sweep_events_payload in He as (ws & ok & -> & _).
    by exists ws, ok. }
  split; [done|]. split; [done|].
  split.
  { unfold broadcast. run_M. by rewrite sweep_spec. }
  split; [apply broadcast_spec|]. simpl.
  split; [done|]. split; [done|].
  intros c. split; [apply count_failures_le|].
  split; [apply count_remove_all|].
  rewrite !count_elem_of, count_remove_all. split; lia.
Qed.

(** C5 (amended). For a valid submission whose row the store accepts,
    the row is first inserted and committed: in the state in which the
    broadcaster is called the table ends with the new row and the history
    ends with the insert and the commit.  The
    sends that follow go to every registered channel, and what each is
    handed is the object with exactly the keys [author] and [message],
    holding the submitted values (as the schema keeps them: stripped);
    it has no [timestamp] key. *)
Theorem post_send_broadcasts_after_commit (body : Body) (st : State) :
  valid_field (body_author body) → valid_field (body_message body) →
  store_accepts (MessageIn.mk (strip (body_author body))
                              (strip (body_message body))) st →
  ∃ payload row st1 evs,
    messages st1 = messages st ++ [row] ∧
    Message.author row = strip (body_author body) ∧
    Message.message row = strip (body_message body) ∧
    trace st1 = trace st ++ [EvExecuteInsert row; EvCommit [row]] ∧
    active_connections st1 = active_connections st ∧
    (POST_post_send body st).2 = (broadcast payload st1).2 ∧
    trace (POST_post_send body st).2 = trace st1 ++ evs ∧
    recipients evs = active_connections st ∧
    (∀ e, e ∈ evs → ∃ ws ok, e = EvSendJson ws payload ok) ∧
    payload !! "author" = Some (strip (body_author body)) ∧
    payload !! "message" = Some (strip (body_message body)) ∧
    dom payload = ({[ "author"; "message" ]} : gset string) ∧
    payload !! "timestamp" = None.
Proof.
  intros Ha Hm Hs. rewrite (POST_post_send_valid _ _ Ha Hm Hs).
  set (msg := MessageIn.mk _ _). simpl.
  eexists _, (inserted_row msg st), (committed msg st), _.
  split; [done|]. split; [done|]. split; [done|]. split; [done|].
  split; [done|]. split; [done|].
  rewrite broadcast_spec. simpl.
  split; [done|].
  split; [apply recipients_sweep_events|].
  split.
  { intros e He. apply sweep_events_payload in He as (ws & ok & -> & _).
    by exists ws, ok. }
  split; [done|]. split; [done|].
  split; [|done].
  rewrite dom_insert_L, dom_singleton_L. done.
Qed.

(** C7 (amended). For a valid submission whose row the store accepts,
    [POST /post/send] answers with the success acknowledgment whatever
    the sends do.  The row is stored and
    the sequence advanced as if every send had succeeded; the failed
    sends show in the registry alone, which loses one entry of a channel
    per failed send to it and is otherwise unchanged. *)
Theorem post_send_hides_delivery_errors (body : Body) (st : State) :
  valid_field (body_author body) → valid_field (body_message body) →
  store_accepts (MessageIn.mk (strip (body_author body))
                              (strip (body_message body))) st →
  ∃ row st' evs,
    POST_post_send body st =
      ({| status_code := 200;
          content := Detail {[ "detail" := "Message sent" ]} |}, st') ∧
    messages st' = messages st ++ [row] ∧
    row = Message.mk (next_id st) (strip (body_author body))
                     (strip (body_message body)) (Some (now (trace st))) ∧
    next_id st' = next_id st + 1 ∧
    trace st' =
      trace st ++ [EvExecuteInsert row; EvCommit [row]] ++ evs ∧
    recipients evs = active_connections st ∧
    active_connections st' =
      remove_all (failures evs) (active_connections st) ∧
    ∀ c, count c (active_connections st') =
         (count c (active_connections st) - count c (failures evs))%nat.
Proof.
  intros Ha Hm Hs. rewrite (POST_post_send_valid _ _ Ha Hm Hs).
  set (msg := MessageIn.mk _ _). rewrite broadcast_spec. simpl.
  eexists _, _, _. split; [done|]. simpl.
  split; [done|]. split; [done|]. split; [done|].
  split; [by rewrite <- app_assoc|].
  split; [apply recipients_sweep_events|].
  split; [done|]. intros c. apply count_remove_all.
Qed.

Lemma step_messages (r : Request) (st : State) :
  messages (step r st) = messages st ∨
  ∃ body row, r = ReqPostSend body ∧
              messages (step r st) = messages st ++ [row].
Proof.
  destruct r as [body| |ws|ws]; cbn [step].
  - destruct (valid_or_invalid (body_author body)) as [Ha|Ha];
      [destruct (valid_or_invalid (body_message body)) as [Hm|Hm]|].
    + destruct (decide (store_accepts
                          (MessageIn.mk (strip (body_author body))
                                        (strip (body_message body))) st))
        as [Hs|Hs].
      * right. exists body. eexists. split; [done|].
        rewrite (POST_post_send_valid _ _ Ha Hm Hs), broadcast_spec. done.
      * left.
        destruct (POST_post_send_refused _ _ Ha Hm Hs)
          as (st' & evs & -> & Hst' & _). exact Hst'.
    + left.
      destruct (post_send_rejects_invalid_aux body st) as [loc ->];
        [by right|done].
    + left.
      destruct (post_send_rejects_invalid_aux body st) as [loc ->];
        [by left|done].
  - left. by rewrite GET_get_msg_spec.
  - left. apply connect_messages.
  - left. unfold websocket_endpoint_except. by rewrite disconnect_spec.
Qed.

(** C9. No operation of the program changes or removes a stored row:
    after any sequence of requests the table still begins with the rows
    it had, each at its place.  A single request either leaves the table
    as it is or is a submission that appends one row. *)
Theorem stored_messages_are_kept (rs : list Request) (st : State) :
  messages st `prefix_of` messages (run rs st) ∧
  (∀ i row, messages st !! i = Some row →
            messages (run rs st) !! i = Some row) ∧
  ∀ r, messages (step r st) = messages st ∨
       ∃ body row, r = ReqPostSend body ∧
                   messages (step r st) = messages st ++ [row].
Proof.
  assert (messages st `prefix_of` messages (run rs st)) as Hp.
  { unfold run. revert st. induction rs as [|r rs IH]; intros st; simpl.
    - done.
    - etrans; [|apply IH].
      destruct (step_messages r st) as [->|(? & row & _ & ->)];
        [done|by apply prefix_app_r]. }
  split; [done|]. split; [|intros r; apply step_messages].
  intros i row Hi. by apply (prefix_lookup_Some _ _ _ _ Hi Hp).
Qed.

(** C10. The registry keeps duplicates.  Let [ws] be a channel whose
    handshake and sends succeed.  Two [connect] calls append it twice.
    One broadcast then delivers the payload to it once per entry (twice,
    for a channel that was not registered before).  One [disconnect]
    removes a single entry, so the channel is still registered, and the
    next broadcast still delivers to it. *)
Theorem registry_keeps_duplicates (ws : WebSocket) (message : dict)
    (st : State) :
  (∀ t, accept_raises t ws = false) →
  (∀ t, send_raises t ws message = false) →
  ∃ st2 st3 st4 st5 evs evs',
    twice (connect ws) st = (Ok tt, st2) ∧
    active_connections st2 = active_connections st ++ [ws; ws] ∧
    broadcast message st2 = (Ok tt, st3) ∧
    trace st3 = trace st2 ++ evs ∧
    count ws (delivered evs) =
      (count ws (active_connections st) + 2)%nat ∧
    disconnect ws st3 = (Ok tt, st4) ∧
    count ws (active_connections st4) =
      (count ws (active_connections st) + 1)%nat ∧
    ws ∈ active_connections st4 ∧
    broadcast message st4 = (Ok tt, st5) ∧
    trace st5 = trace st4 ++ evs' ∧
    count ws (delivered evs') =
      (count ws (active_connections st) + 1)%nat.
Proof.
  intros Hacc Hsend.
  assert (∀ t l, count ws (remove_all
            (failures (sweep_events message t l)) l) = count ws l) as Hkeep.
  { intros t l. rewrite count_remove_all, failures_healthy by done. lia. }
  eexists _, _, _, _, _, _.
  split.
  { unfold twice. run_M. rewrite connect_spec by done. simpl.
    rewrite connect_spec by done. simpl. done. }
  simpl. split; [by rewrite <- app_assoc|].
  split; [apply broadcast_spec|]. simpl.
  split; [done|].
  split.
  { rewrite count_delivered_healthy, <- app_assoc, count_app by done.
    simpl. rewrite decide_True by done. lia. }
  split; [apply disconnect_spec|]. simpl.
  assert (count ws (list_remove ws (remove_all
            (failures (sweep_events message
               ((trace st ++ [EvAccept ws true]) ++ [EvAccept ws true])
               ((active_connections st ++ [ws]) ++ [ws])))
            ((active_connections st ++ [ws]) ++ [ws]))) =
          (count ws (active_connections st) + 1)%nat) as Hc.
  { rewrite count_list_remove, decide_True, Hkeep by done.
    rewrite !count_app. simpl. rewrite decide_True by done. lia. }
  split; [done|].
  split; [apply count_elem_of; lia|].
  split; [apply broadcast_spec|]. simpl.
  split; [done|].
  by rewrite count_delivered_healthy.
Qed.


(** ** Further properties of the code *)

(** *** The registry as a list *)

Lemma list_remove_sublist (x : WebSocket) (l : list WebSocket) :
  list_remove x l `sublist_of` l.
Proof.
  induction l as [|y l IH]; simpl; [done|].
  destruct (decide (x = y)); [by apply sublist_cons|by apply sublist_skip].
Qed.

Lemma remove_all_sublist (rs l : list WebSocket) :
  remove_all rs l `sublist_of` l.
Proof.
  unfold remove_all. revert l. induction rs as [|x rs IH]; intros l; simpl.
  - done.
  - etrans; [apply IH|apply list_remove_sublist].
Qed.

Lemma length_remove_all (rs l : list WebSocket) :
  (∀ c, (count c rs ≤ count c l)%nat) →
  (length (remove_all rs l) + length rs)%nat = length l.
Proof.
  unfold remove_all. revert l. induction rs as [|x rs IH]; intros l H; simpl.
  - lia.
  - assert (x ∈ l) as Hx.
    { apply count_elem_of. specialize (H x). simpl in H.
      rewrite decide_True in H by done. lia. }
    assert (∀ c, (count c rs ≤ count c (list_remove x l))%nat) as H'.
    { intros c. specialize (H c). simpl in H.
      rewrite count_list_remove. destruct (decide (c = x)); lia. }
    specialize (IH _ H'). rewrite <- (length_list_remove _ _ Hx). lia.
Qed.

Lemma list_remove_snoc_fresh (x : WebSocket) (l : list WebSocket) :
  x ∉ l → list_remove x (l ++ [x]) = l.
Proof.
  induction l as [|y l IH]; simpl.
  - intros _. by rewrite decide_True.
  - intros [Hne Hx]%not_elem_of_cons.
    rewrite decide_False by done. by rewrite IH.
Qed.

Lemma failures_all_healthy (message : dict) (t : list Event)
    (conns : list WebSocket) :
  (∀ t' ws, ws ∈ conns → send_raises t' ws message = false) →
  failures (sweep_events message t conns) = [] ∧
  delivered (sweep_events message t conns) = conns.
Proof.
  revert t. induction conns as [|ws rest IH]; intros t H; [done|].
  cbn [sweep_events]. rewrite failures_cons, delivered_cons.
  rewrite H by (by left). cbn [negb].
  destruct (IH (t ++ [EvSendJson ws message true])) as [-> ->]; [|done].
  intros t' ws' Hin. apply H. by right.
Qed.

Lemma count_failures_dead (message : dict) (t : list Event)
    (conns : list WebSocket) (c : WebSocket) :
  (∀ t', send_raises t' c message = true) →
  count c (failures (sweep_events message t conns)) = count c conns.
Proof.
  intros Hc. revert t.
  induction conns as [|ws rest IH]; intros t; [done|].
  cbn [sweep_events]. rewrite failures_cons.
  destruct (send_raises t ws message) eqn:Hs; cbn [negb count].
  - by rewrite IH.
  - destruct (decide (c = ws)) as [->|]; [by rewrite Hc in Hs|].
    by rewrite IH.
Qed.

(** *** [ConnectionManager] *)

(** X1. When the handshake raises, [connect] raises as well and the
    channel is not registered: registry and table are as before, and the
    failed handshake is the only effect. *)
Theorem connect_failed_handshake (ws : WebSocket) (st : State) :
  accept_raises (trace st) ws = true →
  ∃ st',
    connect ws st = (Raise TransportError, st') ∧
    active_connections st' = active_connections st ∧
    messages st' = messages st ∧
    trace st' = trace st ++ [EvAccept ws false].
Proof.
  intros H. eexists. unfold connect, accept. run_M. rewrite H. simpl.
  split; [done|]. done.
Qed.

(** X2. [connect] followed by [disconnect] of the same channel gives
    every channel the number of entries it had; when the channel was not
    registered before, the registry is exactly the one before. *)
Theorem connect_then_disconnect (ws : WebSocket) (st : State) :
  accept_raises (trace st) ws = false →
  ∃ st',
    (connect ws ≫= λ _, disconnect ws) st = (Ok tt, st') ∧
    (∀ c, count c (active_connections st') =
          count c (active_connections st)) ∧
    length (active_connections st') = length (active_connections st) ∧
    (ws ∉ active_connections st →
     active_connections st' = active_connections st).
Proof.
  intros H. eexists. split.
  { run_M. rewrite connect_spec by done. simpl. apply disconnect_spec. }
  simpl. split; [|split].
  - intros c. rewrite count_list_remove, count_app. simpl.
    destruct (decide (c = ws)); lia.
  - assert (ws ∈ active_connections st ++ [ws]) as Hin
      by (apply elem_of_app; right; by left).
    apply length_list_remove in Hin. rewrite length_app in Hin.
    simpl in Hin. lia.
  - apply list_remove_snoc_fresh.
Qed.

(** X3. [disconnect] never raises and touches nothing but the registry.
    The registry it leaves is the old one with at most one entry taken out,
    the others in their order: channels other than the given one keep their
    entries, and the length drops by one exactly when the channel was
    registered. *)
Theorem disconnect_takes_one_entry (ws : WebSocket) (st : State) :
  ∃ st',
    disconnect ws st = (Ok tt, st') ∧
    messages st' = messages st ∧ next_id st' = next_id st ∧
    trace st' = trace st ∧
    active_connections st' `sublist_of` active_connections st ∧
    (∀ c, c ≠ ws →
          count c (active_connections st') =
            count c (active_connections st)) ∧
    count ws (active_connections st') =
      pred (count ws (active_connections st)) ∧
    (ws ∈ active_connections st →
     S (length (active_connections st')) = length (active_connections st)) ∧
    (ws ∉ active_connections st →
     active_connections st' = active_connections st).
Proof.
  eexists. split; [apply disconnect_spec|]. simpl.
  split; [done|]. split; [done|]. split; [done|].
  split; [apply list_remove_sublist|].
  split.
  { intros c Hc. rewrite count_list_remove. by rewrite decide_False. }
  split.
  { rewrite count_list_remove. by rewrite decide_True. }
  split; [apply length_list_remove|apply list_remove_not_elem].
Qed.

(** X4. On an empty registry [broadcast] does nothing at all. *)
Theorem broadcast_empty_registry (message : dict) (st : State) :
  active_connections st = [] →
  broadcast message st = (Ok tt, st).
Proof.
  intros H. rewrite broadcast_spec, H. simpl. rewrite app_nil_r.
  rewrite <- H. by destruct st.
Qed.

(** X5. When no send to a registered channel raises, [broadcast] delivers
    to every entry of the registry, in order, and leaves the registry as
    it is. *)
Theorem broadcast_healthy_keeps_registry (message : dict) (st : State) :
  (∀ t ws, ws ∈ active_connections st → send_raises t ws message = false) →
  ∃ st' evs,
    broadcast message st = (Ok tt, st') ∧
    trace st' = trace st ++ evs ∧
    delivered evs = active_connections st ∧
    failures evs = [] ∧
    active_connections st' = active_connections st.
Proof.
  intros H. eexists _, _. split; [apply broadcast_spec|]. simpl.
  destruct (failures_all_healthy message (trace st) _ H) as [Hf Hd].
  split; [done|]. split; [done|]. split; [done|]. by rewrite Hf.
Qed.

(** X6. [broadcast] never adds to the registry and never touches the
    table: the registry it leaves is the old one with entries taken out,
    the others in their order, and it is shorter by the number of failed
    sends. *)
Theorem broadcast_registry_shrinks (message : dict) (st : State) :
  ∃ st' evs,
    broadcast message st = (Ok tt, st') ∧
    trace st' = trace st ++ evs ∧
    messages st' = messages st ∧ next_id st' = next_id st ∧
    active_connections st' `sublist_of` active_connections st ∧
    (length (active_connections st') + length (failures evs))%nat =
      length (active_connections st).
Proof.
  eexists _, _. split; [apply broadcast_spec|]. simpl.
  split; [done|]. split; [done|]. split; [done|].
  split; [apply remove_all_sublist|].
  apply length_remove_all. intros c. apply count_failures_le.
Qed.

(** X7. A channel on which every send raises is dropped for good by one
    [broadcast], however many entries it had: it is not registered
    afterwards, and the next [broadcast], which sends to the channels still
    registered, sends nothing to it. *)
Theorem dead_channel_is_dropped (c : WebSocket) (m1 m2 : dict) (st : State) :
  (∀ t, send_raises t c m1 = true) →
  ∃ st1 st2 evs2,
    broadcast m1 st = (Ok tt, st1) ∧
    (c ∉ active_connections st1) ∧
    broadcast m2 st1 = (Ok tt, st2) ∧
    trace st2 = trace st1 ++ evs2 ∧
    recipients evs2 = active_connections st1 ∧
    c ∉ recipients evs2.
Proof.
  intros Hc. eexists _, _, _. split; [apply broadcast_spec|]. simpl.
  assert (c ∉ remove_all
            (failures (sweep_events m1 (trace st) (active_connections st)))
            (active_connections st)) as Hgone.
  { rewrite count_elem_of, count_remove_all, count_failures_dead by done.
    lia. }
  split; [done|]. split; [apply broadcast_spec|]. simpl.
  split; [done|]. rewrite recipients_sweep_events. done.
Qed.

(** *** The schema *)

Lemma lstrip_head (s : string) (c : ascii) (s' : string) :
  lstrip s = String c s' → is_whitespace c = false.
Proof.
  induction s as [|d s IH]; simpl; [done|].
  destruct (is_whitespace d) eqn:E; [done|]. by intros [= <- _].
Qed.

Lemma rstrip_head (c : ascii) (s : string) :
  is_whitespace c = false → ∃ r, rstrip (String c s) = String c r.
Proof.
  intros Hc. simpl. destruct (rstrip s); rewrite ?Hc; eauto.
Qed.

Lemma rstrip_idempotent (s : string) : rstrip (rstrip s) = rstrip s.
Proof.
  induction s as [|c s IH]; [done|]. simpl.
  destruct (rstrip s) as [|d r] eqn:E.
  - destruct (is_whitespace c) eqn:Hc; [done|]. simpl. by rewrite Hc.
  - simpl in *. by rewrite IH.
Qed.

Lemma strip_idempotent (s : string) : strip (strip s) = strip s.
Proof.
  unfold strip.
  assert (lstrip (rstrip (lstrip s)) = rstrip (lstrip s)) as ->.
  { destruct (lstrip s) as [|c t] eqn:E; [done|].
    pose proof (lstrip_head _ _ _ E) as Hc.
    destruct (rstrip_head c t Hc) as [r ->]. simpl. by rewrite Hc. }
  apply rstrip_idempotent.
Qed.

Lemma strip_no_leading (s : string) (c : ascii) (s' : string) :
  strip s = String c s' → is_whitespace c = false.
Proof.
  unfold strip. destruct (lstrip s) as [|d t] eqn:E; [done|].
  pose proof (lstrip_head _ _ _ E) as Hd.
  destruct (rstrip_head d t Hd) as [r ->]. by intros [= <- _].
Qed.

Lemma MessageIn_validate_inl (body : Body) (msg : MessageIn.t) :
  MessageIn_validate body = inl msg →
  valid_field (body_author body) ∧ valid_field (body_message body) ∧
  msg = MessageIn.mk (strip (body_author body)) (strip (body_message body)).
Proof.
  intros H.
  destruct (valid_or_invalid (body_author body)) as [Ha|Ha];
    [destruct (valid_or_invalid (body_message body)) as [Hm|Hm]|].
  - rewrite (MessageIn_validate_valid _ Ha Hm) in H. by injection H as <-.
  - destruct (MessageIn_validate_invalid body) as (? & _ & E); [by right|].
    congruence.
  - destruct (MessageIn_validate_invalid body) as (? & _ & E); [by left|].
    congruence.
Qed.

(** X8. The schema accepts a body exactly when both fields, once
    stripped, have between 1 and 255 characters, and the model it builds
    holds the stripped fields; so both fields of an accepted model have
    between 1 and 255 characters and the author, which goes into a column
    of 255 characters, fits it, and neither begins with a stripped
    character. *)
Theorem MessageIn_accepts_iff (body : Body) (msg : MessageIn.t) :
  (MessageIn_validate body = inl msg ↔
   valid_field (body_author body) ∧ valid_field (body_message body) ∧
   msg = MessageIn.mk (strip (body_author body))
                      (strip (body_message body))) ∧
  (MessageIn_validate body = inl msg →
   (1 ≤ String.length (MessageIn.author msg) ≤ 255)%nat ∧
   (1 ≤ String.length (MessageIn.message msg) ≤ 255)%nat ∧
   (∀ c s, MessageIn.author msg = String c s → is_whitespace c = false) ∧
   (∀ c s, MessageIn.message msg = String c s → is_whitespace c = false)).
Proof.
  split.
  - split; [apply MessageIn_validate_inl|].
    intros (Ha & Hm & ->). by apply MessageIn_validate_valid.
  - intros (Ha & Hm & ->)%MessageIn_validate_inl. simpl.
    split; [done|]. split; [done|].
    split; intros c s; apply strip_no_leading.
Qed.

(** X9. What the schema accepted it accepts again unchanged: validating
    a body made of the fields of an accepted model gives that model. *)
Theorem revalidation_is_stable (body : Body) (msg : MessageIn.t) :
  MessageIn_validate body = inl msg →
  MessageIn_validate {| body_author := MessageIn.author msg;
                        body_message := MessageIn.message msg |} = inl msg.
Proof.
  intros (Ha & Hm & ->)%MessageIn_validate_inl. simpl.
  rewrite MessageIn_validate_valid; simpl.
  - by rewrite !strip_idempotent.
  - unfold valid_field. by rewrite strip_idempotent.
  - unfold valid_field. by rewrite strip_idempotent.
Qed.

Lemma valid_not_invalid (v : string) : valid_field v → ¬ invalid_field v.
Proof.
  unfold valid_field, invalid_field. intros H [E|E]; [|lia].
  rewrite E in H. simpl in H. lia.
Qed.

Lemma post_send_cases (body : Body) (st : State) :
  let msg := MessageIn.mk (strip (body_author body))
                          (strip (body_message body)) in
  ((invalid_field (body_author body) ∨ invalid_field (body_message body)) ∧
   (POST_post_send body st).2 = st ∧
   status_code (POST_post_send body st).1 = 422) ∨
  (valid_field (body_author body) ∧ valid_field (body_message body) ∧
   store_accepts msg st ∧
   status_code (POST_post_send body st).1 = 200) ∨
  (valid_field (body_author body) ∧ valid_field (body_message body) ∧
   ¬ store_accepts msg st ∧
   status_code (POST_post_send body st).1 = 500).
Proof.
  intros msg.
  destruct (valid_or_invalid (body_author body)) as [Ha|Ha];
    [destruct (valid_or_invalid (body_message body)) as [Hm|Hm]|].
  - destruct (decide (store_accepts msg st)) as [Hs|Hs].
    + right. left. by rewrite (POST_post_send_valid _ _ Ha Hm Hs).
    + right. right.
      destruct (POST_post_send_refused _ _ Ha Hm Hs) as (? & ? & -> & _).
      done.
  - left. destruct (post_send_rejects_invalid_aux body st) as [loc ->];
      [by right|]. split; [by right|done].
  - left. destruct (post_send_rejects_invalid_aux body st) as [loc ->];
      [by left|]. split; [by left|done].
Qed.

(** X10. [POST /post/send] answers 200, 422 or 500 and nothing else:
    422 exactly when a field is not valid, 200 exactly when both are valid
    and the store accepts the row, 500 exactly when both are valid and the
    store refuses it.  What the sends do has no part in it. *)
Theorem post_send_status (body : Body) (st : State) :
  let code := status_code (POST_post_send body st).1 in
  let msg := MessageIn.mk (strip (body_author body))
                          (strip (body_message body)) in
  (code = 200 ∨ code = 422 ∨ code = 500) ∧
  (code = 422 ↔
   invalid_field (body_author body) ∨ invalid_field (body_message body)) ∧
  (code = 200 ↔
   valid_field (body_author body) ∧ valid_field (body_message body) ∧
   store_accepts msg st) ∧
  (code = 500 ↔
   valid_field (body_author body) ∧ valid_field (body_message body) ∧
   ¬ store_accepts msg st).
Proof.
  intros code msg. subst code.
  assert (∀ v, valid_field v → invalid_field v → False) as Hx
    by (intros v Hv Hi; by apply (valid_not_invalid v)).
  destruct (post_send_cases body st)
    as [(Hi & _ & ->)|[(Ha & Hm & Hs & ->)|(Ha & Hm & Hs & ->)]].
  - split; [auto|]. split; [done|].
    split; (split; [done|]); intros (Ha & Hm & _);
      destruct Hi; exfalso; eauto.
  - split; [auto|]. split; [|split].
    + split; [done|]. intros [Hi|Hi]; exfalso; eauto.
    + done.
    + split; [done|]. by intros (_ & _ & Hs').
  - split; [auto|]. split; [|split].
    + split; [done|]. intros [Hi|Hi]; exfalso; eauto.
    + split; [done|]. by intros (_ & _ & Hs').
    + done.
Qed.

(** *** Requests, one after the other *)

Lemma connect_effect (ws : WebSocket) (st : State) :
  messages (connect ws st).2 = messages st ∧
  next_id (connect ws st).2 = next_id st ∧
  (active_connections (connect ws st).2 = active_connections st ++ [ws] ∨
   active_connections (connect ws st).2 = active_connections st).
Proof.
  unfold connect, accept. run_M.
  destruct (accept_raises (trace st) ws); simpl; auto.
Qed.

(** A submission is answered with 200, and then its row is committed and
    broadcast, or it leaves table and registry as they are. *)
Lemma step_post_cases (body : Body) (st : State) :
  let msg := MessageIn.mk (strip (body_author body))
                          (strip (body_message body)) in
  (acknowledges (ReqPostSend body) st = true ∧
   MessageIn_validate body = inl msg ∧
   step (ReqPostSend body) st =
     (broadcast {[ "author" := MessageIn.author msg;
                   "message" := MessageIn.message msg ]}
                (committed msg st)).2) ∨
  (acknowledges (ReqPostSend body) st = false ∧
   messages (step (ReqPostSend body) st) = messages st ∧
   active_connections (step (ReqPostSend body) st) = active_connections st ∧
   next_id st ≤ next_id (step (ReqPostSend body) st) ≤ next_id st + 1).
Proof.
  intros msg. cbn [acknowledges step].
  destruct (valid_or_invalid (body_author body)) as [Ha|Ha];
    [destruct (valid_or_invalid (body_message body)) as [Hm|Hm]|].
  - destruct (decide (store_accepts msg st)) as [Hs|Hs].
    + left. rewrite (POST_post_send_valid _ _ Ha Hm Hs).
      split; [done|]. split; [|done]. by apply MessageIn_validate_valid.
    + right.
      destruct (POST_post_send_refused _ _ Ha Hm Hs)
        as (st' & evs & -> & ? & ? & ? & _). done.
  - right. destruct (post_send_rejects_invalid_aux body st) as [loc ->];
      [by right|]. simpl. repeat split; first [done|lia].
  - right. destruct (post_send_rejects_invalid_aux body st) as [loc ->];
      [by left|]. simpl. repeat split; first [done|lia].
Qed.

Lemma step_db_stored (r : Request) (st : State) :
  acknowledges r st = true →
  ∃ body msg,
    r = ReqPostSend body ∧ MessageIn_validate body = inl msg ∧
    messages (step r st) = messages st ++ [inserted_row msg st] ∧
    next_id (step r st) = next_id st + 1.
Proof.
  destruct r as [body| |ws|ws]; try done. intros E.
  destruct (step_post_cases body st) as [(_ & Hv & ->)|(E' & _)];
    [|congruence].
  eexists body, _. split; [done|]. split; [exact Hv|].
  by rewrite broadcast_spec.
Qed.

Lemma step_db_other (r : Request) (st : State) :
  acknowledges r st = false →
  messages (step r st) = messages st ∧
  next_id st ≤ next_id (step r st) ≤ next_id st + 1.
Proof.
  destruct r as [body| |ws|ws]; intros E.
  - destruct (step_post_cases body st) as [(E' & _)|(_ & ? & _ & ?)];
      [congruence|done].
  - cbn [step]. rewrite GET_get_msg_spec. simpl. split; [done|lia].
  - cbn [step]. destruct (connect_effect ws st) as (? & Hn & _).
    unfold websocket_endpoint_open. rewrite Hn. split; [done|lia].
  - cbn [step]. unfold websocket_endpoint_except. rewrite disconnect_spec.
    simpl. split; [done|lia].
Qed.

Lemma step_registry (r : Request) (st : State) :
  (∃ ws, r = ReqWsOpen ws ∧
         (active_connections (step r st) = active_connections st ++ [ws] ∨
          active_connections (step r st) = active_connections st)) ∨
  (opened [r] = [] ∧
   active_connections (step r st) `sublist_of` active_connections st).
Proof.
  destruct r as [body| |ws|ws].
  - right. split; [done|].
    destruct (step_post_cases body st) as [(_ & _ & ->)|(_ & _ & -> & _)];
      [|done].
    rewrite broadcast_spec. simpl. apply remove_all_sublist.
  - right. split; [done|]. cbn [step]. by rewrite GET_get_msg_spec.
  - left. exists ws. split; [done|]. apply connect_effect.
  - right. split; [done|]. cbn [step]. unfold websocket_endpoint_except.
    rewrite disconnect_spec. simpl. apply list_remove_sublist.
Qed.

Lemma row_ok_inserted (body : Body) (msg : MessageIn.t) (st : State) :
  MessageIn_validate body = inl msg → row_ok (inserted_row msg st).
Proof.
  intros (Ha & Hm & ->)%MessageIn_validate_inl.
  split; [done|]. split; [done|]. by eexists.
Qed.

(** X11. Over any sequence of requests the table grows by one row per
    submission answered with 200 and by nothing else: submissions answered
    with 422 or 500, reads and channel events add no row.  The sequence
    behind the ids never goes back. *)
Theorem table_grows_by_acknowledged (rs : list Request) (st : State) :
  length (messages (run rs st)) =
    (length (messages st) + acknowledged rs st)%nat ∧
  next_id st ≤ next_id (run rs st).
Proof.
  unfold run. revert st. induction rs as [|r rs IH]; intros st; simpl.
  - split; lia.
  - destruct (IH (step r st)) as [IH1 IH2]. rewrite IH1.
    destruct (acknowledges r st) eqn:E.
    + destruct (step_db_stored r st E) as (? & ? & _ & _ & Hm & Hn).
      rewrite Hm, Hn in *. rewrite length_app. simpl. split; lia.
    + destruct (step_db_other r st E) as [Hm Hn].
      rewrite Hm in *. split; lia.
Qed.

(** X12. Ids stay unique.  If the ids of the table increase with the
    position and lie below the next value of the sequence, the same holds
    after any sequence of requests; in particular no two rows share an
    id. *)
Theorem ids_stay_unique (rs : list Request) (st : State) :
  ids_ok st →
  ids_ok (run rs st) ∧ NoDup (Message.id <$> messages (run rs st)).
Proof.
  intros H.
  assert (ids_ok (run rs st)) as [Hs Hb].
  { unfold run. revert st H.
    induction rs as [|r rs IH]; intros st H; simpl; [done|].
    apply IH. destruct H as [Hs Hb]. unfold ids_ok.
    destruct (acknowledges r st) eqn:E.
    - destruct (step_db_stored r st E) as (? & msg & _ & _ & -> & ->).
      rewrite fmap_app. split.
      + apply StronglySorted_app_2; [|done|by repeat constructor].
        intros x1 x2 (r1 & -> & Hr1)%list_elem_of_fmap
                     ->%list_elem_of_singleton.
        rewrite Forall_forall in Hb. by apply Hb.
      + apply Forall_app. split.
        * eapply Forall_impl; [exact Hb|]. simpl. intros; lia.
        * constructor; [simpl; lia|constructor].
    - destruct (step_db_other r st E) as [-> Hn]. split; [done|].
      eapply Forall_impl; [exact Hb|]. simpl. intros; lia. }
  split; [done|].
  clear Hb. induction Hs as [|x l Hs IH Hx]; constructor; [|done].
  intros Hin. rewrite Forall_forall in Hx. specialize (Hx _ Hin). lia.
Qed.

(** X13. Every row the program writes has an author and a message of
    between 1 and 255 characters and a timestamp that is not null: if all
    rows of the table are so, they all are after any sequence of
    requests. *)
Theorem rows_stay_wellformed (rs : list Request) (st : State) :
  Forall row_ok (messages st) → Forall row_ok (messages (run rs st)).
Proof.
  unfold run. revert st. induction rs as [|r rs IH]; intros st H; simpl.
  - done.
  - apply IH. destruct (acknowledges r st) eqn:E.
    + destruct (step_db_stored r st E) as (body & msg & _ & Hv & -> & _).
      apply Forall_app. split; [done|].
      constructor; [|constructor]. by eapply row_ok_inserted.
    + by destruct (step_db_other r st E) as [-> _].
Qed.

Lemma run_registry_sublist (rs : list Request) (st : State) :
  active_connections (run rs st) `sublist_of`
    active_connections st ++ opened rs.
Proof.
  unfold run. revert st. induction rs as [|r rs IH]; intros st; cbn [foldl].
  - unfold opened. simpl. by rewrite app_nil_r.
  - etrans; [apply IH|].
    destruct (step_registry r st) as [(ws & -> & [E|E])|[Hn Hsub]];
      rewrite ?E.
    + by rewrite <- app_assoc.
    + apply sublist_app; [done|]. unfold opened. simpl.
      by apply sublist_cons.
    + apply sublist_app; [done|].
      replace (opened (r :: rs)) with (opened [r] ++ opened rs)
        by (unfold opened; destruct r; done).
      by rewrite Hn.
Qed.

Lemma run_app (rs1 rs2 : list Request) (st : State) :
  run (rs1 ++ rs2) st = run rs2 (run rs1 st).
Proof. unfold run. apply foldl_app. Qed.

(** X14. A channel is registered only if [/ws] registered it: whatever is
    in the registry after a sequence of requests was in it before or was
    opened by one of them. *)
Theorem registered_only_if_opened (rs : list Request) (st : State)
    (c : WebSocket) :
  c ∈ active_connections (run rs st) →
  c ∈ active_connections st ∨ c ∈ opened rs.
Proof.
  intros H. apply elem_of_app.
  eapply elem_of_sublist; [exact H|]. apply run_registry_sublist.
Qed.

(** X15. The registry gets no duplicates from the program itself: if the
    channels registered at the start and the channels the requests open
    are all different, no channel is registered twice afterwards. *)
Theorem registry_stays_duplicate_free (rs : list Request) (st : State) :
  NoDup (active_connections st ++ opened rs) →
  NoDup (active_connections (run rs st)).
Proof.
  intros H. eapply sublist_NoDup; [exact H|]. apply run_registry_sublist.
Qed.

(** X18. A closed channel stays out.  When the channels registered at the
    start and the channels opened are all different, a channel is not
    registered once the [except] branch of its [/ws] handler has run,
    whatever requests follow that do not open it. *)
Theorem closed_channel_stays_out (rs1 rs2 : list Request) (st : State)
    (c : WebSocket) :
  NoDup (active_connections st ++ opened rs1) →
  c ∉ opened rs2 →
  c ∉ active_connections (run (rs1 ++ ReqWsExcept c :: rs2) st).
Proof.
  intros Hnd Hc2. rewrite run_app.
  pose proof (sublist_NoDup _ _ Hnd (run_registry_sublist rs1 st)) as Hnd1.
  clear Hnd. rename Hnd1 into Hnd. set (st1 := run rs1 st) in *.
  change (ReqWsExcept c :: rs2) with ([ReqWsExcept c] ++ rs2).
  rewrite run_app. intros Hin.
  eapply elem_of_sublist in Hin; [|apply run_registry_sublist].
  apply elem_of_app in Hin as [Hin|Hin]; [|done].
  revert Hin. unfold run. simpl. unfold websocket_endpoint_except.
  rewrite disconnect_spec. simpl.
  rewrite count_elem_of, count_list_remove, decide_True by done.
  assert (count c (active_connections st1) ≤ 1)%nat; [|lia].
  clear -Hnd. induction Hnd as [|x l Hx Hnd IH]; simpl; [lia|].
  destruct (decide (c = x)) as [->|]; [|lia].
  apply count_elem_of_not in Hx. lia.
Qed.

(** *** Reading the history *)

Lemma sorted_perm_last (l rows : list Message.t) (row : Message.t) :
  rows ≡ₚ l ++ [row] →
  StronglySorted row_le rows →
  (∀ r, r ∈ l → ¬ row_le row r) →
  last rows = Some row.
Proof.
  intros Hp Hs Hlt.
  assert (row ∈ rows) as Hin.
  { rewrite Hp. apply elem_of_app. right. by left. }
  apply list_elem_of_split in Hin as (a & b & ->).
  destruct b as [|x b]; [apply last_snoc|]. exfalso.
  assert (l ≡ₚ a ++ x :: b) as Hl.
  { apply (Permutation_cons_app_inv a (x :: b) (a:=row)).
    rewrite Hp. apply Permutation_cons_append. }
  apply (Hlt x).
  - rewrite Hl. apply elem_of_app. right. by left.
  - apply StronglySorted_app_1_r, StronglySorted_cons in Hs as [Hf _].
    rewrite Forall_forall in Hf. apply Hf. by left.
Qed.

Lemma ts_le_antisym (a b : option datetime) : ts_le a b → ts_le b a → a = b.
Proof.
  unfold ts_le. destruct a as [x|], b as [y|]; simpl; try done.
  intros H1%bool_decide_eq_true H2%bool_decide_eq_true. f_equal. lia.
Qed.

(** X16. [GET /get/msg] only reads: it leaves the table, the sequence and
    the registry as they are and answers with as many entries as the
    table has rows.  When no two different rows share a timestamp, its
    answer is the one every listing of the table in ascending order of
    timestamp gives: the order the query leaves open among equal
    timestamps has no part in it. *)
Theorem get_msg_only_reads (st : State) :
  ∃ outs st',
    GET_get_msg st =
      ({| status_code := 200; content := Messages outs |}, st') ∧
    length outs = length (messages st) ∧
    messages st' = messages st ∧ next_id st' = next_id st ∧
    active_connections st' = active_connections st ∧
    ((∀ x y, x ∈ messages st → y ∈ messages st →
             Message.timestamp x = Message.timestamp y → x = y) →
     ∀ rows, rows ≡ₚ messages st → StronglySorted row_le rows →
             to_MessageOut <$> rows = outs).
Proof.
  eexists _, _. split; [apply GET_get_msg_spec|].
  split.
  { rewrite length_fmap. apply Permutation_length, order_by_timestamp_perm. }
  split; [done|]. split; [done|]. split; [done|].
  intros Hdistinct rows Hp Hs. f_equal.
  apply (StronglySorted_unique_strong row_le); [|done| |].
  - intros x1 x2 H1 H2 H12 H21. apply Hdistinct.
    + by rewrite <- Hp.
    + by rewrite <- (order_by_timestamp_perm (messages st)).
    + by apply ts_le_antisym.
  - apply order_by_timestamp_sorted.
  - by rewrite Hp, order_by_timestamp_perm.
Qed.

(** X17. The newest message is listed last.  If every stored row has a
    timestamp earlier than the clock at the time of a valid submission
    whose row the store accepts, the history read after the submission
    ends with the submitted message, with the timestamp the clock gave
    it.  This holds for any listing of the table in ascending order of
    timestamp, however rows with equal timestamps are arranged. *)
Theorem newest_listed_last (body : Body) (st : State) :
  valid_field (body_author body) → valid_field (body_message body) →
  store_accepts (MessageIn.mk (strip (body_author body))
                              (strip (body_message body))) st →
  (∀ r, r ∈ messages st →
        ∃ t, Message.timestamp r = Some t ∧ t < now (trace st)) →
  let st' := (POST_post_send body st).2 in
  let new := MessageOut.mk (strip (body_author body))
               (strip (body_message body)) (isoformat (now (trace st))) in
  (∃ outs,
     (GET_get_msg st').1 =
       {| status_code := 200; content := Messages outs |} ∧
     last outs = Some new) ∧
  ∀ rows, rows ≡ₚ messages st' → StronglySorted row_le rows →
          last (to_MessageOut <$> rows) = Some new.
Proof.
  intros Ha Hm Hacc Hold st' new. subst st'.
  rewrite (POST_post_send_valid _ _ Ha Hm Hacc), broadcast_spec.
  cbn [snd committed messages MessageIn.author MessageIn.message].
  set (msg := MessageIn.mk _ _). fold (inserted_row msg st).
  set (row := inserted_row msg st).
  assert (∀ rows, rows ≡ₚ messages st ++ [row] → StronglySorted row_le rows →
                  last (to_MessageOut <$> rows) = Some new) as Hlast.
  { intros rows Hp Hs. rewrite fmap_last.
    rewrite (sorted_perm_last (messages st) rows row Hp Hs); [done|].
    intros r Hr. destruct (Hold r Hr) as (t & Ht & Hlt).
    unfold row_le, ts_le. rewrite Ht. simpl.
    intros H%bool_decide_eq_true. lia. }
  split; [|exact Hlast].
  eexists. rewrite GET_get_msg_spec. simpl. split; [done|].
  apply Hlast; [apply order_by_timestamp_perm|apply order_by_timestamp_sorted].
Qed.

End App.

(** ** Examples and instances *)

Example strip_alice : strip example_whitespace "  alice " = "alice".
Proof. reflexivity. Qed.

Example strip_blank : strip example_whitespace "   " = "".
Proof. reflexivity. Qed.

Example strip_inner : strip example_whitespace " a b " = "a b".
Proof. reflexivity. Qed.

Example validate_alice :
  MessageIn_validate example_whitespace alice_hi =
    inl (MessageIn.mk "alice" "hi").
Proof. reflexivity. Qed.

Example validate_blank :
  MessageIn_validate example_whitespace blank_author = inr ["author"].
Proof. reflexivity. Qed.

Example list_remove_first : list_remove 7%nat [5; 7; 6; 7]%nat = [5; 6; 7]%nat.
Proof. reflexivity. Qed.

Example order_by_timestamp_nulls_last :
  Message.id <$> order_by_timestamp
    [Message.mk 1 "a" "x" None; Message.mk 2 "b" "y" (Some 5);
     Message.mk 3 "c" "z" (Some 2); Message.mk 4 "d" "w" (Some 5)]
  = [3; 2; 4; 1].
Proof. reflexivity. Qed.

(** The scenario of the specification: submit alice/hi to an empty store,
    then read the history. *)
Example submit_then_read :
  let r1 := POST_post_send example_whitespace example_clock channel_2_broken
    store_up store_up
              {| body_author := "alice"; body_message := "hi" |} empty_state in
  r1.1 = {| status_code := 200;
            content := Detail {[ "detail" := "Message sent" ]} |} ∧
  (GET_get_msg example_isoformat r1.2).1 =
    {| status_code := 200;
       content := Messages [MessageOut.mk "alice" "hi"
                              "2023-11-14T22:13:20+00:00"] |}.
Proof. split; reflexivity. Qed.

(** A broadcast over registry [1; 2; 3] with channel 2 broken: three sends,
    then channel 2 is unregistered. *)
Example broadcast_drops_broken :
  let st := (broadcast channel_2_broken {[ "author" := "a" ]}
               example_state).2 in
  active_connections st = [1; 3]%nat ∧
  recipients (trace st) = [1; 2; 3]%nat ∧
  failures (trace st) = [2]%nat.
Proof. repeat split; reflexivity. Qed.

Lemma post_send_rejects_invalid_witness :
  (invalid_field example_whitespace (body_author blank_author) ∨
   invalid_field example_whitespace (body_message blank_author)) ∧
  ∃ loc,
    loc ≠ [] ∧
    POST_post_send example_whitespace example_clock channel_2_broken
      store_up store_up
      blank_author example_state =
      ({| status_code := 422; content := ValidationErrors loc |},
       example_state) ∧
    (GET_get_msg example_isoformat
       (POST_post_send example_whitespace example_clock channel_2_broken
         store_up store_up
          blank_author example_state).2).1 =
    (GET_get_msg example_isoformat example_state).1.
Proof.
  assert (invalid_field example_whitespace (body_author blank_author) ∨
          invalid_field example_whitespace (body_message blank_author)) as H.
  { left. left. reflexivity. }
  split; [exact H|].
  exact (post_send_rejects_invalid example_whitespace example_isoformat
           example_clock channel_2_broken
             store_up store_up blank_author example_state H).
Defined.

Lemma post_send_acknowledges_witness :
  valid_field example_whitespace (body_author alice_hi) ∧
  valid_field example_whitespace (body_message alice_hi) ∧
  store_accepts example_clock store_up store_up
    (MessageIn.mk (strip example_whitespace (body_author alice_hi))
                  (strip example_whitespace (body_message alice_hi)))
    example_state ∧
  ∃ d,
    (POST_post_send example_whitespace example_clock channel_2_broken
      store_up store_up
       alice_hi example_state).1 =
      {| status_code := 200; content := Detail d |} ∧
    d = {[ "detail" := "Message sent" ]} ∧
    dom d = ({[ "detail" ]} : gset string) ∧
    d !! "id" = None ∧ d !! "author" = None ∧
    d !! "message" = None ∧ d !! "timestamp" = None.
Proof.
  assert (valid_field example_whitespace (body_author alice_hi)) as Ha
    by (unfold valid_field; simpl; lia).
  assert (valid_field example_whitespace (body_message alice_hi)) as Hm
    by (unfold valid_field; simpl; lia).
  assert (store_accepts example_clock store_up store_up
            (MessageIn.mk (strip example_whitespace (body_author alice_hi))
                          (strip example_whitespace (body_message alice_hi)))
            example_state) as Hs.
  { unfold store_accepts, id_max. simpl. split_and!; try reflexivity; [lia|].
    intros H%list_elem_of_singleton. discriminate. }
  split; [exact Ha|]. split; [exact Hm|]. split; [exact Hs|].
  exact (post_send_acknowledges example_whitespace example_clock
           channel_2_broken store_up store_up alice_hi example_state Ha Hm Hs).
Defined.

Lemma post_then_get_shows_message_witness :
  valid_field example_whitespace (body_author alice_hi) ∧
  valid_field example_whitespace (body_message alice_hi) ∧
  store_accepts example_clock store_up store_up
    (MessageIn.mk (strip example_whitespace (body_author alice_hi))
                  (strip example_whitespace (body_message alice_hi)))
    example_state ∧
  ∃ rows out,
    (GET_get_msg example_isoformat
       (POST_post_send example_whitespace example_clock channel_2_broken
         store_up store_up
          alice_hi example_state).2).1 =
      {| status_code := 200;
         content := Messages (to_MessageOut example_isoformat <$> rows) |} ∧
    out ∈ to_MessageOut example_isoformat <$> rows ∧
    MessageOut.author out = strip example_whitespace (body_author alice_hi) ∧
    MessageOut.message out = strip example_whitespace (body_message alice_hi) ∧
    StronglySorted row_le rows.
Proof.
  assert (valid_field example_whitespace (body_author alice_hi)) as Ha
    by (unfold valid_field; simpl; lia).
  assert (valid_field example_whitespace (body_message alice_hi)) as Hm
    by (unfold valid_field; simpl; lia).
  assert (store_accepts example_clock store_up store_up
            (MessageIn.mk (strip example_whitespace (body_author alice_hi))
                          (strip example_whitespace (body_message alice_hi)))
            example_state) as Hs.
  { unfold store_accepts, id_max. simpl. split_and!; try reflexivity; [lia|].
    intros H%list_elem_of_singleton. discriminate. }
  split; [exact Ha|]. split; [exact Hm|]. split; [exact Hs|].
  exact (post_then_get_shows_message example_whitespace example_isoformat
           example_clock channel_2_broken
             store_up store_up alice_hi example_state Ha Hm Hs).
Defined.

Lemma post_send_broadcasts_after_commit_witness :
  valid_field example_whitespace (body_author alice_hi) ∧
  valid_field example_whitespace (body_message alice_hi) ∧
  store_accepts example_clock store_up store_up
    (MessageIn.mk (strip example_whitespace (body_author alice_hi))
                  (strip example_whitespace (body_message alice_hi)))
    example_state ∧
  ∃ payload row st1 evs,
    messages st1 = messages example_state ++ [row] ∧
    Message.author row = strip example_whitespace (body_author alice_hi) ∧
    Message.message row = strip example_whitespace (body_message alice_hi) ∧
    trace st1 =
      trace example_state ++ [EvExecuteInsert row; EvCommit [row]] ∧
    active_connections st1 = active_connections example_state ∧
    (POST_post_send example_whitespace example_clock channel_2_broken
      store_up store_up
       alice_hi example_state).2 =
      (broadcast channel_2_broken payload st1).2 ∧
    trace (POST_post_send example_whitespace example_clock channel_2_broken
      store_up store_up
             alice_hi example_state).2 = trace st1 ++ evs ∧
    recipients evs = active_connections example_state ∧
    (∀ e, e ∈ evs → ∃ ws ok, e = EvSendJson ws payload ok) ∧
    payload !! "author" =
      Some (strip example_whitespace (body_author alice_hi)) ∧
    payload !! "message" =
      Some (strip example_whitespace (body_message alice_hi)) ∧
    dom payload = ({[ "author"; "message" ]} : gset string) ∧
    payload !! "timestamp" = None.
Proof.
  assert (valid_field example_whitespace (body_author alice_hi)) as Ha
    by (unfold valid_field; simpl; lia).
  assert (valid_field example_whitespace (body_message alice_hi)) as Hm
    by (unfold valid_field; simpl; lia).
  assert (store_accepts example_clock store_up store_up
            (MessageIn.mk (strip example_whitespace (body_author alice_hi))
                          (strip example_whitespace (body_message alice_hi)))
            example_state) as Hs.
  { unfold store_accepts, id_max. simpl. split_and!; try reflexivity; [lia|].
    intros H%list_elem_of_singleton. discriminate. }
  split; [exact Ha|]. split; [exact Hm|]. split; [exact Hs|].
  exact (post_send_broadcasts_after_commit example_whitespace example_clock
           channel_2_broken store_up store_up alice_hi example_state Ha Hm Hs).
Defined.

Lemma post_send_hides_delivery_errors_witness :
  valid_field example_whitespace (body_author alice_hi) ∧
  valid_field example_whitespace (body_message alice_hi) ∧
  store_accepts example_clock store_up store_up
    (MessageIn.mk (strip example_whitespace (body_author alice_hi))
                  (strip example_whitespace (body_message alice_hi)))
    example_state ∧
  ∃ row st' evs,
    POST_post_send example_whitespace example_clock channel_2_broken
      store_up store_up
      alice_hi example_state =
      ({| status_code := 200;
          content := Detail {[ "detail" := "Message sent" ]} |}, st') ∧
    messages st' = messages example_state ++ [row] ∧
    row = Message.mk (next_id example_state)
            (strip example_whitespace (body_author alice_hi))
            (strip example_whitespace (body_message alice_hi))
            (Some (example_clock (trace example_state))) ∧
    next_id st' = next_id example_state + 1 ∧
    trace st' =
      trace example_state ++ [EvExecuteInsert row; EvCommit [row]] ++ evs ∧
    recipients evs = active_connections example_state ∧
    active_connections st' =
      remove_all (failures evs) (active_connections example_state) ∧
    ∀ c, count c (active_connections st') =
         (count c (active_connections example_state) -
          count c (failures evs))%nat.
Proof.
  assert (valid_field example_whitespace (body_author alice_hi)) as Ha
    by (unfold valid_field; simpl; lia).
  assert (valid_field example_whitespace (body_message alice_hi)) as Hm
    by (unfold valid_field; simpl; lia).
  assert (store_accepts example_clock store_up store_up
            (MessageIn.mk (strip example_whitespace (body_author alice_hi))
                          (strip example_whitespace (body_message alice_hi)))
            example_state) as Hs.
  { unfold store_accepts, id_max. simpl. split_and!; try reflexivity; [lia|].
    intros H%list_elem_of_singleton. discriminate. }
  split; [exact Ha|]. split; [exact Hm|]. split; [exact Hs|].
  exact (post_send_hides_delivery_errors example_whitespace example_clock
           channel_2_broken store_up store_up alice_hi example_state Ha Hm Hs).
Defined.

(** Channel 2 is broken and registered: the submission is acknowledged all
    the same, and the registry is left with channels 1 and 3. *)
Example post_send_with_broken_channel :
  let r := POST_post_send example_whitespace example_clock channel_2_broken
    store_up store_up
             alice_hi example_state in
  r.1 = {| status_code := 200;
           content := Detail {[ "detail" := "Message sent" ]} |} ∧
  active_connections r.2 = [1; 3]%nat ∧
  Message.id <$> messages r.2 = [1; 2].
Proof. repeat split; reflexivity. Qed.

Lemma registry_keeps_duplicates_witness :
  (∀ t, always_accepts t 7%nat = false) ∧
  (∀ t, channel_2_broken t 7%nat {[ "author" := "a" ]} = false) ∧
  ∃ st2 st3 st4 st5 evs evs',
    twice (connect always_accepts 7%nat) example_state = (Ok tt, st2) ∧
    active_connections st2 =
      active_connections example_state ++ [7; 7]%nat ∧
    broadcast channel_2_broken {[ "author" := "a" ]} st2 = (Ok tt, st3) ∧
    trace st3 = trace st2 ++ evs ∧
    count 7%nat (delivered evs) =
      (count 7%nat (active_connections example_state) + 2)%nat ∧
    disconnect 7%nat st3 = (Ok tt, st4) ∧
    count 7%nat (active_connections st4) =
      (count 7%nat (active_connections example_state) + 1)%nat ∧
    7%nat ∈ active_connections st4 ∧
    broadcast channel_2_broken {[ "author" := "a" ]} st4 = (Ok tt, st5) ∧
    trace st5 = trace st4 ++ evs' ∧
    count 7%nat (delivered evs') =
      (count 7%nat (active_connections example_state) + 1)%nat.
Proof.
  assert (∀ t, always_accepts t 7%nat = false) as Ha
    by (intros t; reflexivity).
  assert (∀ t, channel_2_broken t 7%nat {[ "author" := "a" ]} = false) as Hs
    by (intros t; reflexivity).
  split; [exact Ha|]. split; [exact Hs|].
  exact (registry_keeps_duplicates always_accepts channel_2_broken 7%nat
           {[ "author" := "a" ]} example_state Ha Hs).
Defined.

(** The same run, evaluated: the registry after two [connect] calls, and
    after the [disconnect] that follows. *)
Example connect_twice_then_disconnect :
  let st2 := (twice (connect always_accepts 7%nat) empty_state).2 in
  let st3 := (broadcast channel_2_broken {[ "author" := "a" ]} st2).2 in
  active_connections st2 = [7; 7]%nat ∧
  delivered (trace st3) = [7; 7]%nat ∧
  active_connections (disconnect 7%nat st3).2 = [7]%nat.
Proof. repeat split; reflexivity. Qed.

(** [disconnect] on registry [1; 2; 3]: once and twice give the same for
    a registered channel and for one that is not. *)
Example disconnect_registered_once :
  active_connections (disconnect 2%nat example_state).2 = [1; 3]%nat ∧
  active_connections (twice (disconnect 2%nat) example_state).2 = [1; 3]%nat ∧
  twice (disconnect 9%nat) example_state = (Ok tt, example_state).
Proof. repeat split; reflexivity. Qed.


(** ** Writes the store refuses *)

Example nul_author_is_valid :
  MessageIn_validate example_whitespace nul_author =
    inl (MessageIn.mk (String "a" (String "000" (String "b" ""))) "hi").
Proof. reflexivity. Qed.

(** A store that cannot be reached: 500, no row, no send, and the
    registry, broken channel included, as it was. *)
Example post_send_store_down :
  let r := POST_post_send example_whitespace example_clock channel_2_broken
             store_down store_up alice_hi example_state in
  r.1 = {| status_code := 500; content := ServerError |} ∧
  messages r.2 = messages example_state ∧
  active_connections r.2 = [1; 2; 3]%nat ∧
  trace r.2 = [EvExecuteRaised].
Proof. repeat split; reflexivity. Qed.

(** A commit that fails: the row was inserted in the session and is lost
    with it; the sequence has moved on. *)
Example post_send_commit_fails :
  let r := POST_post_send example_whitespace example_clock channel_2_broken
             store_up store_down alice_hi example_state in
  r.1 = {| status_code := 500; content := ServerError |} ∧
  messages r.2 = messages example_state ∧
  next_id r.2 = 3 ∧
  recipients (trace r.2) = [].
Proof. repeat split; reflexivity. Qed.

(** C8 as stated fails for a valid body whose author holds U+0000: the
    store refuses the row and the answer is 500. *)
Lemma post_send_valid_answers_500 :
  valid_field example_whitespace (body_author nul_author) ∧
  valid_field example_whitespace (body_message nul_author) ∧
  (POST_post_send example_whitespace example_clock channel_2_broken
     store_up store_up nul_author example_state).1 =
    {| status_code := 500; content := ServerError |}.
Proof.
  split; [unfold valid_field; simpl; lia|].
  split; [unfold valid_field; simpl; lia|]. reflexivity.
Qed.

(** C2 as stated fails for the same body: the history read after the
    submission holds the old row alone, and no entry with the submitted
    author. *)
Lemma post_then_get_misses_message :
  valid_field example_whitespace (body_author nul_author) ∧
  valid_field example_whitespace (body_message nul_author) ∧
  ∃ outs,
    (GET_get_msg example_isoformat
       (POST_post_send example_whitespace example_clock channel_2_broken
          store_up store_up nul_author example_state).2).1 =
      {| status_code := 200; content := Messages outs |} ∧
    outs = [MessageOut.mk "bob" "yo" "2023-11-14T22:13:19+00:00"] ∧
    ∀ out, out ∈ outs →
           MessageOut.author out ≠
             strip example_whitespace (body_author nul_author).
Proof.
  split; [unfold valid_field; simpl; lia|].
  split; [unfold valid_field; simpl; lia|].
  eexists. split; [reflexivity|]. split; [reflexivity|].
  intros out ->%list_elem_of_singleton. discriminate.
Qed.

(** C5 as stated fails for the same body: three channels are registered
    and none is sent anything, and no row is inserted. *)
Lemma post_send_valid_not_broadcast :
  valid_field example_whitespace (body_author nul_author) ∧
  valid_field example_whitespace (body_message nul_author) ∧
  let st' := (POST_post_send example_whitespace example_clock
                channel_2_broken store_up store_up nul_author
                example_state).2 in
  active_connections example_state = [1; 2; 3]%nat ∧
  recipients (trace st') = [] ∧
  messages st' = messages example_state.
Proof.
  split; [unfold valid_field; simpl; lia|].
  split; [unfold valid_field; simpl; lia|]. repeat split; reflexivity.
Qed.

(** C7 as stated fails when the sequence behind the ids is exhausted: the
    valid submission alice/hi is answered with 500, not with the
    acknowledgment, and nothing is stored. *)
Lemma post_send_valid_refused_at_id_max :
  valid_field example_whitespace (body_author alice_hi) ∧
  valid_field example_whitespace (body_message alice_hi) ∧
  let r := POST_post_send example_whitespace example_clock channel_2_broken
             store_up store_up alice_hi exhausted_state in
  r.1 = {| status_code := 500; content := ServerError |} ∧
  r.1 ≠ {| status_code := 200;
           content := Detail {[ "detail" := "Message sent" ]} |} ∧
  messages r.2 = messages exhausted_state ∧
  active_connections r.2 = [1; 2; 3]%nat.
Proof.
  split; [unfold valid_field; simpl; lia|].
  split; [unfold valid_field; simpl; lia|].
  repeat split; try reflexivity. discriminate.
Qed.

(** ** Instances of the further properties *)

Lemma connect_failed_handshake_witness :
  handshake_9_fails (trace example_state) 9%nat = true ∧
  ∃ st',
    connect handshake_9_fails 9%nat example_state =
      (Raise TransportError, st') ∧
    active_connections st' = active_connections example_state ∧
    messages st' = messages example_state ∧
    trace st' = trace example_state ++ [EvAccept 9%nat false].
Proof.
  assert (handshake_9_fails (trace example_state) 9%nat = true) as H
    by reflexivity.
  split; [exact H|].
  exact (connect_failed_handshake handshake_9_fails 9%nat example_state H).
Defined.

Lemma connect_then_disconnect_witness :
  always_accepts (trace example_state) 7%nat = false ∧
  ∃ st',
    (connect always_accepts 7%nat ≫= λ _, disconnect 7%nat) example_state =
      (Ok tt, st') ∧
    (∀ c, count c (active_connections st') =
          count c (active_connections example_state)) ∧
    length (active_connections st') =
      length (active_connections example_state) ∧
    (7%nat ∉ active_connections example_state →
     active_connections st' = active_connections example_state).
Proof.
  assert (always_accepts (trace example_state) 7%nat = false) as H
    by reflexivity.
  split; [exact H|].
  exact (connect_then_disconnect always_accepts 7%nat example_state H).
Defined.

(** When the channel was registered before, the entry that goes is the
    earlier one. *)
Example connect_then_disconnect_registered :
  active_connections
    ((connect always_accepts 2%nat ≫= λ _, disconnect 2%nat)
       example_state).2
  = [1; 3; 2]%nat.
Proof. reflexivity. Qed.

Lemma broadcast_empty_registry_witness :
  active_connections empty_state = [] ∧
  broadcast channel_2_broken {[ "author" := "a" ]} empty_state =
    (Ok tt, empty_state).
Proof.
  assert (active_connections empty_state = []) as H by reflexivity.
  split; [exact H|].
  exact (broadcast_empty_registry channel_2_broken {[ "author" := "a" ]}
           empty_state H).
Defined.

Lemma broadcast_healthy_keeps_registry_witness :
  (∀ t ws, ws ∈ active_connections healthy_state →
           channel_2_broken t ws {[ "author" := "a" ]} = false) ∧
  ∃ st' evs,
    broadcast channel_2_broken {[ "author" := "a" ]} healthy_state =
      (Ok tt, st') ∧
    trace st' = trace healthy_state ++ evs ∧
    delivered evs = active_connections healthy_state ∧
    failures evs = [] ∧
    active_connections st' = active_connections healthy_state.
Proof.
  assert (∀ t ws, ws ∈ active_connections healthy_state →
                  channel_2_broken t ws {[ "author" := "a" ]} = false) as H.
  { intros t ws Hin. simpl in Hin.
    apply elem_of_cons in Hin as [->|Hin]; [reflexivity|].
    apply elem_of_cons in Hin as [->|Hin]; [reflexivity|].
    by apply elem_of_nil in Hin. }
  split; [exact H|].
  exact (broadcast_healthy_keeps_registry channel_2_broken
           {[ "author" := "a" ]} healthy_state H).
Defined.

Lemma dead_channel_is_dropped_witness :
  (∀ t, channel_2_broken t 2%nat {[ "author" := "a" ]} = true) ∧
  ∃ st1 st2 evs2,
    broadcast channel_2_broken {[ "author" := "a" ]} example_state =
      (Ok tt, st1) ∧
    (2%nat ∉ active_connections st1) ∧
    broadcast channel_2_broken {[ "author" := "b" ]} st1 = (Ok tt, st2) ∧
    trace st2 = trace st1 ++ evs2 ∧
    recipients evs2 = active_connections st1 ∧
    2%nat ∉ recipients evs2.
Proof.
  assert (∀ t, channel_2_broken t 2%nat {[ "author" := "a" ]} = true) as H
    by (intros t; reflexivity).
  split; [exact H|].
  exact (dead_channel_is_dropped channel_2_broken 2%nat
           {[ "author" := "a" ]} {[ "author" := "b" ]} example_state H).
Defined.

Lemma revalidation_is_stable_witness :
  MessageIn_validate example_whitespace alice_hi =
    inl (MessageIn.mk "alice" "hi") ∧
  MessageIn_validate example_whitespace
    {| body_author := MessageIn.author (MessageIn.mk "alice" "hi");
       body_message := MessageIn.message (MessageIn.mk "alice" "hi") |} =
    inl (MessageIn.mk "alice" "hi").
Proof.
  assert (MessageIn_validate example_whitespace alice_hi =
            inl (MessageIn.mk "alice" "hi")) as H by reflexivity.
  split; [exact H|].
  exact (revalidation_is_stable example_whitespace alice_hi
           (MessageIn.mk "alice" "hi") H).
Defined.

Lemma ids_stay_unique_witness :
  ids_ok example_state ∧
  ids_ok (run example_whitespace example_isoformat example_clock
            always_accepts channel_2_broken
    store_up store_up
            [ReqPostSend alice_hi; ReqGetMsg; ReqPostSend blank_author;
             ReqPostSend alice_hi] example_state) ∧
  NoDup (Message.id <$>
         messages (run example_whitespace example_isoformat example_clock
                     always_accepts channel_2_broken
    store_up store_up
                     [ReqPostSend alice_hi; ReqGetMsg;
                      ReqPostSend blank_author; ReqPostSend alice_hi]
                     example_state)).
Proof.
  assert (ids_ok example_state) as H.
  { split; simpl; repeat constructor. }
  split; [exact H|].
  exact (ids_stay_unique example_whitespace example_isoformat example_clock
           always_accepts channel_2_broken
    store_up store_up _ example_state H).
Defined.

(** The run of the instance above, evaluated: two rows are added, with
    ids 2 and 3; the rejected submission uses up no id. *)
Example run_ids :
  let st := run example_whitespace example_isoformat example_clock
              always_accepts channel_2_broken
    store_up store_up
              [ReqPostSend alice_hi; ReqGetMsg; ReqPostSend blank_author;
               ReqPostSend alice_hi] example_state in
  Message.id <$> messages st = [1; 2; 3] ∧ next_id st = 4.
Proof. split; reflexivity. Qed.

Lemma rows_stay_wellformed_witness :
  Forall row_ok (messages example_state) ∧
  Forall row_ok
    (messages (run example_whitespace example_isoformat example_clock
                 always_accepts channel_2_broken
    store_up store_up
                 [ReqPostSend alice_hi; ReqWsOpen 7%nat] example_state)).
Proof.
  assert (Forall row_ok (messages example_state)) as H.
  { repeat constructor; simpl; try lia. by eexists. }
  split; [exact H|].
  exact (rows_stay_wellformed example_whitespace example_isoformat
           example_clock always_accepts channel_2_broken
    store_up store_up _ example_state H).
Defined.

Lemma registered_only_if_opened_witness :
  7%nat ∈ active_connections
            (run example_whitespace example_isoformat example_clock
               always_accepts channel_2_broken
    store_up store_up
               [ReqWsOpen 7%nat; ReqPostSend alice_hi] example_state) ∧
  (7%nat ∈ active_connections example_state ∨
   7%nat ∈ opened [ReqWsOpen 7%nat; ReqPostSend alice_hi]).
Proof.
  assert (7%nat ∈ active_connections
            (run example_whitespace example_isoformat example_clock
               always_accepts channel_2_broken
    store_up store_up
               [ReqWsOpen 7%nat; ReqPostSend alice_hi] example_state)) as H.
  { vm_compute. repeat constructor. }
  split; [exact H|].
  exact (registered_only_if_opened example_whitespace example_isoformat
           example_clock always_accepts channel_2_broken
    store_up store_up _ example_state
           7%nat H).
Defined.

Lemma registry_stays_duplicate_free_witness :
  NoDup (active_connections example_state ++
         opened [ReqWsOpen 7%nat; ReqPostSend alice_hi; ReqWsOpen 8%nat]) ∧
  NoDup (active_connections
           (run example_whitespace example_isoformat example_clock
              always_accepts channel_2_broken
    store_up store_up
              [ReqWsOpen 7%nat; ReqPostSend alice_hi; ReqWsOpen 8%nat]
              example_state)).
Proof.
  assert (NoDup (active_connections example_state ++
            opened [ReqWsOpen 7%nat; ReqPostSend alice_hi;
                    ReqWsOpen 8%nat])) as H.
  { apply (bool_decide_unpack _). vm_compute. exact I. }
  split; [exact H|].
  exact (registry_stays_duplicate_free example_whitespace example_isoformat
           example_clock always_accepts channel_2_broken
    store_up store_up _ example_state H).
Defined.

Lemma closed_channel_stays_out_witness :
  NoDup (active_connections example_state ++ opened [ReqWsOpen 7%nat]) ∧
  (7%nat ∉ opened [ReqPostSend alice_hi; ReqWsOpen 8%nat]) ∧
  7%nat ∉ active_connections
            (run example_whitespace example_isoformat example_clock
               always_accepts channel_2_broken
    store_up store_up
               ([ReqWsOpen 7%nat] ++
                ReqWsExcept 7%nat :: [ReqPostSend alice_hi; ReqWsOpen 8%nat])
               example_state).
Proof.
  assert (NoDup (active_connections example_state ++
                 opened [ReqWsOpen 7%nat])) as H1.
  { apply (bool_decide_unpack _). vm_compute. exact I. }
  assert (7%nat ∉ opened [ReqPostSend alice_hi; ReqWsOpen 8%nat]) as H2.
  { apply (bool_decide_unpack _). vm_compute. exact I. }
  split; [exact H1|]. split; [exact H2|].
  exact (closed_channel_stays_out example_whitespace example_isoformat
           example_clock always_accepts channel_2_broken
    store_up store_up _ _ example_state
           7%nat H1 H2).
Defined.

Lemma newest_listed_last_witness :
  valid_field example_whitespace (body_author alice_hi) ∧
  valid_field example_whitespace (body_message alice_hi) ∧
  store_accepts example_clock store_up store_up
    (MessageIn.mk (strip example_whitespace (body_author alice_hi))
                  (strip example_whitespace (body_message alice_hi)))
    example_state ∧
  (∀ r, r ∈ messages example_state →
        ∃ t, Message.timestamp r = Some t ∧
             t < example_clock (trace example_state)) ∧
  let st' := (POST_post_send example_whitespace example_clock
                channel_2_broken store_up store_up alice_hi example_state).2 in
  let new := MessageOut.mk (strip example_whitespace (body_author alice_hi))
               (strip example_whitespace (body_message alice_hi))
               (example_isoformat (example_clock (trace example_state))) in
  (∃ outs,
     (GET_get_msg example_isoformat st').1 =
       {| status_code := 200; content := Messages outs |} ∧
     last outs = Some new) ∧
  ∀ rows, rows ≡ₚ messages st' → StronglySorted row_le rows →
          last (to_MessageOut example_isoformat <$> rows) = Some new.
Proof.
  assert (valid_field example_whitespace (body_author alice_hi)) as Ha
    by (unfold valid_field; simpl; lia).
  assert (valid_field example_whitespace (body_message alice_hi)) as Hm
    by (unfold valid_field; simpl; lia).
  assert (∀ r, r ∈ messages example_state →
               ∃ t, Message.timestamp r = Some t ∧
                    t < example_clock (trace example_state)) as Hold.
  { intros r Hr. simpl in Hr. apply list_elem_of_singleton in Hr as ->.
    eexists. split; [reflexivity|]. vm_compute. reflexivity. }
  assert (store_accepts example_clock store_up store_up
            (MessageIn.mk (strip example_whitespace (body_author alice_hi))
                          (strip example_whitespace (body_message alice_hi)))
            example_state) as Hs.
  { unfold store_accepts, id_max. simpl. split_and!; try reflexivity; [lia|].
    intros H%list_elem_of_singleton. discriminate. }
  split; [exact Ha|]. split; [exact Hm|]. split; [exact Hs|].
  split; [exact Hold|].
  exact (newest_listed_last example_whitespace example_isoformat
           example_clock channel_2_broken
             store_up store_up alice_hi example_state Ha Hm Hs Hold).
Defined.
